(** * last-successful-build-action: the run-selection logic of [src/main.ts]

    A shallow embedding of the GitHub action that looks up the commit of
    the last successful run of a workflow.  The action is one asynchronous
    function [run] and one helper [verifyCommit] with a module-level cache;
    both are embedded as actions of a small state-and-exception monad over
    the mutable state of the process, and the hosted API and the local
    [git] invocation are oracles collected in a [World]. *)

From Stdlib Require Import List String Ascii ZArith Bool Arith Lia.
From Stdlib Require Import Permutation Sorted.
Import ListNotations.

Local Open Scope string_scope.
Local Open Scope list_scope.

(** ** JavaScript values and string helpers *)

Module JS.

(** A string in a condition is true unless it is empty. *)
Definition truthy (s : string) : bool := negb (String.eqb s "").

(** [o === s] for a value [o] of type [string | null]. *)
Definition strict_eq (o : option string) (s : string) : bool :=
  match o with
  | Some v => String.eqb v s
  | None => false
  end.

(** A value of type [string | undefined] in a condition. *)
Definition truthy_opt (o : option string) : bool :=
  match o with
  | Some v => truthy v
  | None => false
  end.

(** White space and line terminators of single-byte text: tab, line feed,
    vertical tab, form feed, carriage return and space. *)
Definition is_space (c : ascii) : bool :=
  let n := nat_of_ascii c in
  ((9 <=? n)%nat && (n <=? 13)%nat) || (n =? 32)%nat.

Fixpoint trimStart (s : string) : string :=
  match s with
  | EmptyString => EmptyString
  | String c s' => if is_space c then trimStart s' else s
  end.

Fixpoint trimEnd (s : string) : string :=
  match s with
  | EmptyString => EmptyString
  | String c s' =>
      let t := trimEnd s' in
      if is_space c && String.eqb t "" then EmptyString else String c t
  end.

(** [s.trim()] *)
Definition trim (s : string) : string := trimEnd (trimStart s).

(** [s.split(sep)] for a one-character separator: never empty, the empty
    string splits into one empty piece. *)
Fixpoint split (sep : ascii) (s : string) : list string :=
  match s with
  | EmptyString => [EmptyString]
  | String c s' =>
      if Ascii.eqb c sep then EmptyString :: split sep s'
      else match split sep s' with
           | piece :: pieces => String c piece :: pieces
           | [] => [String c EmptyString]
           end
  end.

(** [s.toLowerCase()] on the letters A to Z. *)
Definition lower (c : ascii) : ascii :=
  let n := nat_of_ascii c in
  if (65 <=? n)%nat && (n <=? 90)%nat then ascii_of_nat (n + 32) else c.

Fixpoint toLowerCase (s : string) : string :=
  match s with
  | EmptyString => EmptyString
  | String c s' => String (lower c) (toLowerCase s')
  end.

(** [xs.includes(x)] on an array of strings. *)
Definition includes (xs : list string) (x : string) : bool :=
  existsb (String.eqb x) xs.

(** [xs.find(p)] *)
Definition find {A : Type} (p : A -> bool) (xs : list A) : option A :=
  List.find p xs.

Section Sort.
Context {A : Type} (compareFn : A -> A -> Z).

(** [xs.sort(compareFn)].  The sort of the language is stable, and for a
    comparator that orders its arguments consistently the sorted array
    is determined by that: each element is placed before the first one
    it has to precede.  [compareFn a b <= 0] keeps [a] before [b]. *)
Fixpoint insert (x : A) (xs : list A) : list A :=
  match xs with
  | [] => [x]
  | y :: ys =>
      if (compareFn x y <=? 0)%Z then x :: xs else y :: insert x ys
  end.

Definition sort (xs : list A) : list A := fold_right insert [] xs.
End Sort.

End JS.

(** ** Records of the hosted API *)

(** A workflow of the repository. *)
Record Workflow := {
  wf_id : Z;
  wf_name : string
}.

(** A workflow run.  [created_at] is the instant the date-time string of the
    API denotes, in milliseconds: [new Date(x.created_at).getTime()]. *)
Record WorkflowRun := {
  id : Z;
  head_sha : string;
  head_branch : option string;
  conclusion : option string;
  created_at : Z;
  html_url : string
}.

(** A job of a workflow run. *)
Record Job := {
  job_name : string;
  job_conclusion : option string
}.

(** The inputs of the action, as [run] reads them. *)
Record Inputs := {
  token : string;
  branch : string;
  workflow : string;
  job : string;
  verify : bool;
  repo : string
}.

(** ** Logging and process state *)

Inductive Level := Info | Warning | Debug.

(** One constructor per message template of the source. *)
Inductive Message :=
| GettingShas (cmd : string)
    (* Getting list of SHAs in repo via command "${cmd}" *)
| ShaListError (msg : string)
    (* Error while attempting to get list of SHAs: ${e?.message} *)
| LookingForSha (sha : string)
    (* Looking for SHA ${sha} in repo SHAs *)
| DiscoveredWorkflowId (workflowId : Z)
    (* Discovered workflowId for search: ${workflowId} *)
| FoundRuns (n : nat)
    (* Found ${runs.length} runs *)
| RunSha (sha : string)
    (* Run SHA: ${run.head_sha} *)
| RunBranch (b : option string)
    (* Run Branch: ${run.head_branch} *)
| WantedBranch (b : string)
    (* Wanted branch: ${inputs.branch} *)
| VerifyFailed (sha : string)
    (* Failed to verify commit ${run.head_sha}. Skipping. *)
| CheckingJob (j : Job)
    (* Checking job: ${job} *)
| Verified (sha url : string)
    (* Commit ${run.head_sha} from run ${run.html_url} verified as last
       successful CI run. *)
| Using (sha url : string)
    (* Using ${run.head_sha} from run ${run.html_url} as last successful CI
       run. *)
| NoPreviousRuns (b : string)
    (* No previous runs found for branch ${inputs.branch}. *)
| UnableToDetermine (n : nat)
    (* Unable to determine SHA of last successful commit (possibly outside
       the window of ${runs.length} runs). Using earliest SHA available. *).

Definition Event : Type := Level * Message.

(** What [core.setFailed] is called with. *)
Inductive Failure :=
| NoWorkflow (name : string)
    (* No workflow exists with the name "${inputs.workflow}" *)
| ErrorMessage (msg : string)
    (* error?.message *).

(** The mutable state of the process: the module-level [repoShas], what was
    logged, the outputs set and the failure reported.  [execCalls] counts
    the invocations of [execAsync]. *)
Record State := {
  repoShas : option (list string);
  execCalls : nat;
  log : list Event;
  outputs : list (string * option string);
  failure : option Failure
}.

Definition initial : State :=
  {| repoShas := None; execCalls := 0; log := []; outputs := [];
     failure := None |}.

(** ** Actions: state and exceptions *)

Inductive Outcome (A : Type) :=
| Returned (a : A)
| Thrown (msg : string).
Arguments Returned {A} a.
Arguments Thrown {A} msg.

Definition Action (A : Type) : Type := State -> Outcome A * State.

Definition ret {A : Type} (a : A) : Action A := fun st => (Returned a, st).

Definition bind {A B : Type} (m : Action A) (k : A -> Action B) : Action B :=
  fun st =>
    match m st with
    | (Returned a, st') => k a st'
    | (Thrown msg, st') => (Thrown msg, st')
    end.

Definition try_catch {A : Type} (m : Action A) (handler : string -> Action A)
  : Action A :=
  fun st =>
    match m st with
    | (Returned a, st') => (Returned a, st')
    | (Thrown msg, st') => handler msg st'
    end.

(** [await p] for a promise that settled with [r]. *)
Definition await {A : Type} (r : Outcome A) : Action A := fun st => (r, st).

Declare Scope action_scope.
Delimit Scope action_scope with action.
Notation "x <- m ;; k" := (bind m (fun x => k))
  (at level 61, m at next level, right associativity) : action_scope.
Notation "m ;; k" := (bind m (fun _ => k))
  (at level 61, right associativity) : action_scope.
Local Open Scope action_scope.

Module core.

Definition emit (l : Level) (m : Message) : Action unit :=
  fun st =>
    (Returned tt,
     {| repoShas := repoShas st; execCalls := execCalls st;
        log := log st ++ [(l, m)]; outputs := outputs st;
        failure := failure st |}).

Definition info := emit Info.
Definition warning := emit Warning.
Definition debug := emit Debug.

Definition setOutput (name : string) (value : option string) : Action unit :=
  fun st =>
    (Returned tt,
     {| repoShas := repoShas st; execCalls := execCalls st;
        log := log st; outputs := outputs st ++ [(name, value)];
        failure := failure st |}).

Definition setFailed (msg : Failure) : Action unit :=
  fun st =>
    (Returned tt,
     {| repoShas := repoShas st; execCalls := execCalls st;
        log := log st; outputs := outputs st; failure := Some msg |}).

End core.


(** ** The world outside the process *)

(** The client [github.getOctokit] returns: the three calls of
    [octokit.rest.actions] the action makes, each with the promise it
    settles to.  [owner] and [repo] are the pieces of the [repo] input and
    are [undefined] where the input has no such piece. *)
Record Octokit := {
  listRepoWorkflows : option string -> option string -> Outcome (list Workflow);
  listWorkflowRuns :
    option string -> option string -> Z -> Outcome (list WorkflowRun);
  listJobsForWorkflowRun :
    option string -> option string -> Z -> Outcome (list Job)
}.

(** [execAsync cmd n] is what the invocation of [cmd] settles to when [n]
    invocations came before it: the standard output, or the message of the
    error. *)
Record World := {
  getInput : string -> string;
  getOctokit : string -> Outcome Octokit;
  execAsync : string -> nat -> Outcome string
}.

Section Action.

Variable W : World.

(** ** [verifyCommit] *)

Definition get_repoShas : Action (option (list string)) :=
  fun st => (Returned (repoShas st), st).

Definition set_repoShas (shas : list string) : Action unit :=
  fun st =>
    (Returned tt,
     {| repoShas := Some shas; execCalls := execCalls st; log := log st;
        outputs := outputs st; failure := failure st |}).

Definition exec (cmd : string) : Action string :=
  fun st =>
    (execAsync W cmd (execCalls st),
     {| repoShas := repoShas st; execCalls := S (execCalls st);
        log := log st; outputs := outputs st; failure := failure st |}).

Definition newline : ascii := ascii_of_nat 10.

(** The body of the [if (!repoShas)]: [None] when control falls through to
    the lookup, [Some b] when the handler returns [b]. *)
Definition load_repoShas : Action (option bool) :=
  try_catch
    (let cmd := "git log --format=format:%H" in
     core.info (GettingShas cmd);;
     stdout <- exec cmd;;
     set_repoShas (JS.split newline (JS.trim stdout));;
     ret None)
    (fun e =>
       set_repoShas [];;
       core.warning (ShaListError e);;
       ret (Some false)).

Definition verifyCommit (sha : string) : Action bool :=
  cached <- get_repoShas;;
  returned <- match cached with
              | None => load_repoShas
              | Some _ => ret None
              end;;
  match returned with
  | Some b => ret b
  | None =>
      core.info (LookingForSha sha);;
      shas <- get_repoShas;;
      match shas with
      | Some shas => ret (JS.includes shas sha)
      | None => await (Thrown "TypeError") (* not reached: filled above *)
      end
  end.

(** ** [run] *)

(** The callback of [filter]. *)
Definition keep (inputs : Inputs) (x : WorkflowRun) : bool :=
  (negb (JS.truthy (branch inputs))
   || JS.strict_eq (head_branch x) (branch inputs))
  && (JS.truthy (job inputs) || JS.strict_eq (conclusion x) "success").

(** The callback of [sort]. *)
Definition by_created_at (r1 r2 : WorkflowRun) : Z :=
  (created_at r2 - created_at r1)%Z.

(** The inner loop over [jobs.data.jobs]; the value is [foundJob]. *)
Fixpoint find_job (wanted : string) (jobs : list Job) : Action bool :=
  match jobs with
  | [] => ret false
  | j :: rest =>
      core.debug (CheckingJob j);;
      if String.eqb (job_name j) wanted then
        if JS.strict_eq (job_conclusion j) "success" then ret true
        else find_job wanted rest
      else find_job wanted rest
  end.

(** The [for (const run of runs)] loop; the value is the pair of [lastSha]
    and [sha] when the loop is left.  A [continue] is the recursive call,
    the [break] returns. *)
Fixpoint scan (inputs : Inputs) (octokit : Octokit) (owner repo : option string)
  (runs : list WorkflowRun) (lastSha : option string)
  : Action (option string * option string) :=
  match runs with
  | [] => ret (lastSha, None)
  | run :: rest =>
      let lastSha := Some (head_sha run) in
      core.debug (RunSha (head_sha run));;
      core.debug (RunBranch (head_branch run));;
      core.debug (WantedBranch (branch inputs));;
      if JS.truthy (branch inputs)
         && negb (JS.strict_eq (head_branch run) (branch inputs))
      then scan inputs octokit owner repo rest lastSha
      else
        unverified <- (if verify inputs
                       then ok <- verifyCommit (head_sha run);; ret (negb ok)
                       else ret false);;
        if unverified then
          core.warning (VerifyFailed (head_sha run));;
          scan inputs octokit owner repo rest lastSha
        else
          foundJob <- (if JS.truthy (job inputs) then
                         jobs <- await (listJobsForWorkflowRun octokit owner
                                          repo (id run));;
                         find_job (job inputs) jobs
                       else ret true);;
          if negb foundJob then scan inputs octokit owner repo rest lastSha
          else
            core.info (if verify inputs
                       then Verified (head_sha run) (html_url run)
                       else Using (head_sha run) (html_url run));;
            ret (lastSha, Some (head_sha run))
  end.

(** [runs]: the response filtered and sorted. *)
Definition ranked (inputs : Inputs) (workflow_runs : list WorkflowRun)
  : list WorkflowRun :=
  JS.sort by_created_at (filter (keep inputs) workflow_runs).

(** The [if (runs.length > 0)] around the loop; the value is again the
    pair of [lastSha] and [sha]. *)
Definition find_sha (inputs : Inputs) (octokit : Octokit)
  (owner repo : option string) (runs : list WorkflowRun)
  : Action (option string * option string) :=
  if (0 <? List.length runs)%nat
  then scan inputs octokit owner repo runs None
  else core.info (NoPreviousRuns (branch inputs));;
       ret (None, None).

(** From the [filter] to the [setOutput]. *)
Definition select (inputs : Inputs) (octokit : Octokit)
  (owner repo : option string) (workflow_runs : list WorkflowRun)
  : Action unit :=
  let runs := ranked inputs workflow_runs in
  core.debug (FoundRuns (List.length runs));;
  found <- find_sha inputs octokit owner repo runs;;
  let '(lastSha, sha) := found in
  sha <- (if negb (JS.truthy_opt sha) then
            core.warning (UnableToDetermine (List.length runs));;
            ret lastSha
          else ret sha);;
  core.setOutput "sha" sha.

Definition read_inputs : Inputs :=
  {| token := getInput W "token";
     branch := getInput W "branch";
     workflow := getInput W "workflow";
     job := getInput W "job";
     verify := String.eqb (getInput W "verify") "true";
     repo := getInput W "repo" |}.

Definition slash : ascii := ascii_of_nat 47.

(** [!workflowId] *)
Definition no_id (workflowId : option Z) : bool :=
  match workflowId with
  | Some n => (n =? 0)%Z
  | None => true
  end.

Definition run : Action unit :=
  try_catch
    (let inputs := read_inputs in
     octokit <- await (getOctokit W (token inputs));;
     let repository := repo inputs in
     let pieces := JS.split slash repository in
     let owner := nth_error pieces 0 in
     let repo := nth_error pieces 1 in
     workflows <- await (listRepoWorkflows octokit owner repo);;
     let workflowId :=
       option_map wf_id
         (JS.find (fun w => String.eqb (JS.toLowerCase (wf_name w))
                              (JS.toLowerCase (workflow inputs)))
            workflows) in
     match workflowId with
     | Some workflowId' =>
         if no_id workflowId then
           core.setFailed (NoWorkflow (workflow inputs))
         else
           core.info (DiscoveredWorkflowId workflowId');;
           response <- await (listWorkflowRuns octokit owner repo workflowId');;
           select inputs octokit owner repo response
     | None => core.setFailed (NoWorkflow (workflow inputs))
     end)
    (fun msg => core.setFailed (ErrorMessage msg)).

End Action.

(** ** What the checks of the loop decide *)

Definition git_log : string := "git log --format=format:%H".

(** The commit history the verifier answers from in state [st]: the cache
    when it is filled, and otherwise what the next invocation of the
    listing command will fill it with. *)
Definition history (W : World) (st : State) : list string :=
  match repoShas st with
  | Some shas => shas
  | None =>
      match execAsync W git_log (execCalls st) with
      | Returned stdout => JS.split newline (JS.trim stdout)
      | Thrown _ => []
      end
  end.

(** Some job carries the wanted name and succeeded. *)
Definition has_job (wanted : string) (jobs : list Job) : bool :=
  existsb
    (fun j => String.eqb (job_name j) wanted
              && JS.strict_eq (job_conclusion j) "success")
    jobs.

(** The three checks, as propositions about one run. *)
Definition branch_matches (inputs : Inputs) (r : WorkflowRun) : Prop :=
  branch inputs = "" \/ head_branch r = Some (branch inputs).

Definition commit_verified (inputs : Inputs) (hist : list string)
  (r : WorkflowRun) : Prop :=
  verify inputs = true -> In (head_sha r) hist.

Definition job_succeeded (inputs : Inputs) (octokit : Octokit)
  (owner repo : option string) (r : WorkflowRun) : Prop :=
  job inputs <> "" ->
  exists jobs j,
    listJobsForWorkflowRun octokit owner repo (id r) = Returned jobs
    /\ In j jobs
    /\ job_name j = job inputs
    /\ job_conclusion j = Some "success".

Definition satisfies_all (inputs : Inputs) (octokit : Octokit)
  (owner repo : option string) (hist : list string) (r : WorkflowRun) : Prop :=
  branch_matches inputs r
  /\ commit_verified inputs hist r
  /\ job_succeeded inputs octokit owner repo r.

(** What one iteration of the loop does with a run, the history being
    [hist]: it selects the run, skips it, or the job lookup fails. *)
Inductive Verdict :=
| Selected
| Skipped
| Failed (msg : string).

Definition verdict (inputs : Inputs) (octokit : Octokit)
  (owner repo : option string) (hist : list string) (r : WorkflowRun)
  : Verdict :=
  if JS.truthy (branch inputs)
     && negb (JS.strict_eq (head_branch r) (branch inputs))
  then Skipped
  else if verify inputs && negb (JS.includes hist (head_sha r))
  then Skipped
  else if JS.truthy (job inputs) then
    match listJobsForWorkflowRun octokit owner repo (id r) with
    | Returned jobs => if has_job (job inputs) jobs then Selected else Skipped
    | Thrown msg => Failed msg
    end
  else Selected.

(** [lastSha] after the loop went through all of [runs]. *)
Definition lastSha_after (runs : list WorkflowRun) (lastSha : option string)
  : option string :=
  fold_left (fun _ r => Some (head_sha r)) runs lastSha.

(** A later state of the same process: nothing was output or reported
    between the two, the log grew, the verifier answers from the same
    history, and a cache that was filled is untouched and caused no further
    invocation of the listing command. *)
Definition carries_on (W : World) (st st' : State) : Prop :=
  outputs st' = outputs st
  /\ failure st' = failure st
  /\ history W st' = history W st
  /\ (forall shas, repoShas st = Some shas -> repoShas st' = Some shas)
  /\ (forall shas, repoShas st = Some shas -> execCalls st' = execCalls st)
  /\ exists events, log st' = log st ++ events.

(** The state after the three [core.debug] calls that open an iteration. *)
Definition opened (inputs : Inputs) (r : WorkflowRun) (st : State) : State :=
  {| repoShas := repoShas st; execCalls := execCalls st;
     log := ((log st ++ [(Debug, RunSha (head_sha r))])
               ++ [(Debug, RunBranch (head_branch r))])
              ++ [(Debug, WantedBranch (branch inputs))];
     outputs := outputs st; failure := failure st |}.

(** The order of the ranking, and the runs created at one instant. *)
Definition newer_first (a b : WorkflowRun) : Prop :=
  (created_at b <= created_at a)%Z.

Definition created (t : Z) (r : WorkflowRun) : bool :=
  (created_at r =? t)%Z.

(** The state after the [core.debug] that reports the number of runs. *)
Definition announced (n : nat) (st : State) : State :=
  {| repoShas := repoShas st; execCalls := execCalls st;
     log := log st ++ [(Debug, FoundRuns n)];
     outputs := outputs st; failure := failure st |}.

(** [verifyCommit] called on each of [shas] in turn. *)
Fixpoint verify_each (W : World) (shas : list string) : Action (list bool) :=
  match shas with
  | [] => ret []
  | sha :: rest =>
      b <- verifyCommit W sha;;
      bs <- verify_each W rest;;
      ret (b :: bs)
  end.

(** ** The loop without the second branch check *)

(** [scan] with the [if (inputs.branch && run.head_branch !== inputs.branch)]
    taken out, and [select] over it. *)
Fixpoint scan_unchecked (W : World) (inputs : Inputs) (octokit : Octokit)
  (owner repo : option string) (runs : list WorkflowRun)
  (lastSha : option string) : Action (option string * option string) :=
  match runs with
  | [] => ret (lastSha, None)
  | run :: rest =>
      let lastSha := Some (head_sha run) in
      core.debug (RunSha (head_sha run));;
      core.debug (RunBranch (head_branch run));;
      core.debug (WantedBranch (branch inputs));;
      unverified <- (if verify inputs
                     then ok <- verifyCommit W (head_sha run);; ret (negb ok)
                     else ret false);;
      if unverified then
        core.warning (VerifyFailed (head_sha run));;
        scan_unchecked W inputs octokit owner repo rest lastSha
      else
        foundJob <- (if JS.truthy (job inputs) then
                       jobs <- await (listJobsForWorkflowRun octokit owner
                                        repo (id run));;
                       find_job (job inputs) jobs
                     else ret true);;
        if negb foundJob
        then scan_unchecked W inputs octokit owner repo rest lastSha
        else
          core.info (if verify inputs
                     then Verified (head_sha run) (html_url run)
                     else Using (head_sha run) (html_url run));;
          ret (lastSha, Some (head_sha run))
  end.

Definition select_unchecked (W : World) (inputs : Inputs) (octokit : Octokit)
  (owner repo : option string) (workflow_runs : list WorkflowRun)
  : Action unit :=
  let runs := ranked inputs workflow_runs in
  core.debug (FoundRuns (List.length runs));;
  found <- (if (0 <? List.length runs)%nat
            then scan_unchecked W inputs octokit owner repo runs None
            else core.info (NoPreviousRuns (branch inputs));;
                 ret (None, None));;
  let '(lastSha, sha) := found in
  sha <- (if negb (JS.truthy_opt sha) then
            core.warning (UnableToDetermine (List.length runs));;
            ret lastSha
          else ret sha);;
  core.setOutput "sha" sha.

(** ** Concrete worlds and runs *)

Module Scenario.

Definition mk_run (n : Z) (sha : string) (b : string) (c : string) (t : Z)
  : WorkflowRun :=
  {| id := n; head_sha := sha; head_branch := Some b; conclusion := Some c;
     created_at := t; html_url := "https://ci/" ++ sha |}.

Definition run_a : WorkflowRun := mk_run 1 "aaa" "main" "failure" 300.
Definition run_b : WorkflowRun := mk_run 2 "bbb" "main" "success" 200.
Definition run_c : WorkflowRun := mk_run 3 "ccc" "main" "success" 100.
Definition run_d : WorkflowRun := mk_run 4 "ddd" "main" "success" 200.

(** In the order the API delivers them. *)
Definition fetched : list WorkflowRun := [run_c; run_a; run_b; run_d].

Definition job_test_ok : Job :=
  {| job_name := "test"; job_conclusion := Some "success" |}.
Definition job_test_bad : Job :=
  {| job_name := "test"; job_conclusion := Some "failure" |}.
Definition job_build_ok : Job :=
  {| job_name := "build"; job_conclusion := Some "success" |}.
Definition job_Test_ok : Job :=
  {| job_name := "Test"; job_conclusion := Some "success" |}.

Definition jobs_of (run_id : Z) : list Job :=
  if (run_id =? 1)%Z then [job_build_ok; job_Test_ok]
  else if (run_id =? 2)%Z then [job_build_ok; job_test_bad]
  else [job_build_ok; job_test_ok].

Definition octokit : Octokit :=
  {| listRepoWorkflows := fun _ _ => Returned [{| wf_id := 7; wf_name := "CI" |}];
     listWorkflowRuns := fun _ _ _ => Returned fetched;
     listJobsForWorkflowRun := fun _ _ run_id => Returned (jobs_of run_id) |}.

Definition owner : option string := Some "acme".
Definition repository : option string := Some "widgets".

Definition input_of (b j v : string) (name : string) : string :=
  if String.eqb name "token" then "t0ken"
  else if String.eqb name "branch" then b
  else if String.eqb name "workflow" then "ci"
  else if String.eqb name "job" then j
  else if String.eqb name "verify" then v
  else if String.eqb name "repo" then "acme/widgets"
  else "".

(** The local history lists [ccc] and [bbb]. *)
Definition stdout_ok : string :=
  String.append "ccc" (String newline (String.append "bbb" (String newline ""))).

(** A checkout in which [git log] works. *)
Definition with_git (b j v : string) : World :=
  {| getInput := input_of b j v;
     getOctokit := fun _ => Returned octokit;
     execAsync := fun _ _ => Returned stdout_ok |}.

(** A checkout in which the first [git log] fails and later ones would
    work. *)
Definition without_git (b j v : string) : World :=
  {| getInput := input_of b j v;
     getOctokit := fun _ => Returned octokit;
     execAsync := fun _ n =>
                    match n with
                    | O => Thrown "Command failed"
                    | S _ => Returned stdout_ok
                    end |}.

(** The inputs ask for verification and the listing command fails. *)
Definition broken : World := without_git "" "" "true".

(** The state the first, failing call of the verifier leaves. *)
Definition after_failure : State := snd (verifyCommit broken "ccc" initial).

(** The state a first, successful call of the verifier leaves. *)
Definition after_listing : State :=
  snd (verifyCommit (with_git "" "test" "true") "ccc" initial).

Definition plain : Inputs := read_inputs (with_git "" "" "false").
Definition verifying : Inputs := read_inputs (with_git "" "" "true").
Definition on_release : Inputs :=
  read_inputs (with_git "release" "" "false").
Definition wanting_test : Inputs := read_inputs (with_git "" "test" "false").
Definition verifying_test : Inputs := read_inputs (with_git "" "test" "true").

End Scenario.

(** ** Notions for the action as a whole *)

(** The warning of the fallback, whatever number of runs it reports. *)
Definition fallback_warning (e : Event) : bool :=
  match e with
  | (Warning, UnableToDetermine _) => true
  | _ => false
  end.

(** Between [st] and [st'] the listing command was not invoked and the
    cache not written, or verification is on, the cache was undefined, the
    command was invoked once and the cache is now filled. *)
Definition listed_at_most_once (inputs : Inputs) (st st' : State) : Prop :=
  (execCalls st' = execCalls st /\ repoShas st' = repoShas st)
  \/ (verify inputs = true
      /\ repoShas st = None
      /\ repoShas st' <> None
      /\ execCalls st' = S (execCalls st)).

(** What the loop does to the state: it sets no output and reports no
    failure, it appends entries to the log, none of them the warning of the
    fallback, and it lists the history at most once. *)
Definition steps_on (inputs : Inputs) (st st' : State) : Prop :=
  outputs st' = outputs st
  /\ failure st' = failure st
  /\ (exists events,
         log st' = log st ++ events
         /\ Forall (fun e => fallback_warning e = false) events)
  /\ listed_at_most_once inputs st st'.

(** [st] with [events] appended to its log. *)
Definition logged (st : State) (events : list Event) : State :=
  {| repoShas := repoShas st; execCalls := execCalls st;
     log := log st ++ events; outputs := outputs st;
     failure := failure st |}.


(** The entry the inner loop writes for a job. *)
Definition checking (j : Job) : Event := (Debug, CheckingJob j).

(** The test of the inner loop: the wanted name and the conclusion
    "success". *)
Definition is_wanted (wanted : string) (j : Job) : bool :=
  String.eqb (job_name j) wanted
  && JS.strict_eq (job_conclusion j) "success".

(** Every character of [s] passes [p]. *)
Fixpoint all_chars (p : ascii -> bool) (s : string) : bool :=
  match s with
  | EmptyString => true
  | String c s' => p c && all_chars p s'
  end.

(** The printing characters of ASCII other than the space; commit hashes
    are made of them. *)
Definition visible (c : ascii) : bool :=
  let n := nat_of_ascii c in
  (33 <=? n)%nat && (n <=? 126)%nat.

Definition not_slash (c : ascii) : bool := negb (Ascii.eqb c slash).

(** Lines joined by line feeds, as the listing command prints them. *)
Definition unlines (lines : list string) : string :=
  String.concat (String newline EmptyString) lines.


(** The owner and the repository [run] passes to the API. *)
Definition owner_of (repository : string) : option string :=
  nth_error (JS.split slash repository) 0.

Definition repo_of (repository : string) : option string :=
  nth_error (JS.split slash repository) 1.

(** ** More concrete worlds *)

Module Edge.

(** The inputs name a workflow the repository does not have. *)
Definition input_of (w r : string) (name : string) : string :=
  if String.eqb name "token" then "t0ken"
  else if String.eqb name "workflow" then w
  else if String.eqb name "job" then "test"
  else if String.eqb name "repo" then r
  else "".

(** The job lookup is rejected for run 2. *)
Definition octokit : Octokit :=
  {| listRepoWorkflows :=
       fun _ _ => Returned [{| wf_id := 0; wf_name := "Nightly" |};
                            {| wf_id := 7; wf_name := "CI" |}];
     listWorkflowRuns := fun _ _ _ => Returned Scenario.fetched;
     listJobsForWorkflowRun :=
       fun _ _ run_id =>
         if (run_id =? 2)%Z then Thrown "Not Found"
         else Returned (Scenario.jobs_of run_id) |}.

Definition world (w r : string) : World :=
  {| getInput := input_of w r;
     getOctokit := fun _ => Returned octokit;
     execAsync := fun _ _ => Returned (String newline EmptyString) |}.


(** A run whose head SHA is the empty string. *)
Definition run_e : WorkflowRun :=
  {| id := 5; head_sha := ""; head_branch := Some "main";
     conclusion := Some "success"; created_at := 400;
     html_url := "https://ci/none" |}.

End Edge.

(** * Properties *)

(** ** Strings and options *)

Lemma truthy_false (s : string) : JS.truthy s = false <-> s = "".
Proof.
  unfold JS.truthy. destruct (String.eqb_spec s ""); simpl; split;
    congruence.
Qed.

Lemma truthy_true (s : string) : JS.truthy s = true <-> s <> "".
Proof.
  unfold JS.truthy. destruct (String.eqb_spec s ""); simpl; split;
    congruence.
Qed.

Lemma strict_eq_true (o : option string) (s : string) :
  JS.strict_eq o s = true <-> o = Some s.
Proof.
  destruct o as [v|]; simpl.
  - destruct (String.eqb_spec v s); split; congruence.
  - split; congruence.
Qed.

Lemma includes_In (xs : list string) (x : string) :
  JS.includes xs x = true <-> In x xs.
Proof.
  unfold JS.includes. rewrite existsb_exists. split.
  - intros [y [Hy E]]. apply String.eqb_eq in E. now subst.
  - intros H. exists x. split; [assumption | apply String.eqb_refl].
Qed.

Lemma has_job_exists (wanted : string) (jobs : list Job) :
  has_job wanted jobs = true <->
  exists j, In j jobs /\ job_name j = wanted
            /\ job_conclusion j = Some "success".
Proof.
  unfold has_job. rewrite existsb_exists. split.
  - intros [j [Hj E]]. apply andb_true_iff in E. destruct E as [E1 E2].
    exists j. rewrite String.eqb_eq in E1. rewrite strict_eq_true in E2.
    auto.
  - intros [j [Hj [E1 E2]]]. exists j. split; [assumption|].
    apply andb_true_iff. rewrite String.eqb_eq, strict_eq_true. auto.
Qed.

(** ** The state between calls *)

Lemma carries_on_refl (W : World) (st : State) : carries_on W st st.
Proof.
  unfold carries_on. repeat split; auto. exists []. now rewrite app_nil_r.
Qed.

Lemma carries_on_trans (W : World) (st1 st2 st3 : State) :
  carries_on W st1 st2 -> carries_on W st2 st3 -> carries_on W st1 st3.
Proof.
  intros (O1 & F1 & H1 & R1 & C1 & e1 & L1) (O2 & F2 & H2 & R2 & C2 & e2 & L2).
  unfold carries_on. repeat split; try congruence.
  - intros shas E. apply R2, R1, E.
  - intros shas E. rewrite (C2 shas (R1 shas E)). apply (C1 shas E).
  - exists (e1 ++ e2). rewrite L2, L1. now rewrite app_assoc.
Qed.

Lemma carries_on_emit (W : World) (l : Level) (m : Message) (st : State) :
  carries_on W st (snd (core.emit l m st)).
Proof.
  unfold carries_on, history. simpl. repeat split; auto. now exists [(l, m)].
Qed.

(** ** [verifyCommit] *)

Lemma verifyCommit_cached (W : World) (sha : string) (st : State)
  (shas : list string) :
  repoShas st = Some shas ->
  verifyCommit W sha st =
    (Returned (JS.includes shas sha),
     {| repoShas := Some shas; execCalls := execCalls st;
        log := log st ++ [(Info, LookingForSha sha)];
        outputs := outputs st; failure := failure st |}).
Proof.
  intros H. unfold verifyCommit, bind, get_repoShas, ret. rewrite H.
  simpl. rewrite H. reflexivity.
Qed.

Lemma verifyCommit_listed (W : World) (sha : string) (st : State)
  (stdout : string) :
  repoShas st = None ->
  execAsync W git_log (execCalls st) = Returned stdout ->
  verifyCommit W sha st =
    (Returned (JS.includes (JS.split newline (JS.trim stdout)) sha),
     {| repoShas := Some (JS.split newline (JS.trim stdout));
        execCalls := S (execCalls st);
        log := log st ++ [(Info, GettingShas git_log);
                          (Info, LookingForSha sha)];
        outputs := outputs st; failure := failure st |}).
Proof.
  intros H E. unfold git_log in *.
  unfold verifyCommit, bind, get_repoShas, ret. rewrite H.
  unfold load_repoShas, try_catch, bind, exec, set_repoShas, ret. simpl.
  rewrite E. simpl. rewrite <- app_assoc. reflexivity.
Qed.

Lemma verifyCommit_failed (W : World) (sha : string) (st : State)
  (e : string) :
  repoShas st = None ->
  execAsync W git_log (execCalls st) = Thrown e ->
  verifyCommit W sha st =
    (Returned false,
     {| repoShas := Some []; execCalls := S (execCalls st);
        log := log st ++ [(Info, GettingShas git_log);
                          (Warning, ShaListError e)];
        outputs := outputs st; failure := failure st |}).
Proof.
  intros H E. unfold git_log in *.
  unfold verifyCommit, bind, get_repoShas, ret. rewrite H.
  unfold load_repoShas, try_catch, bind, exec, set_repoShas, ret. simpl.
  rewrite E. simpl. rewrite <- app_assoc. reflexivity.
Qed.

(** Whatever the state of the cache, the verifier answers from [history],
    and afterwards the cache holds it. *)
Lemma verifyCommit_history (W : World) (sha : string) (st : State) :
  exists st',
    verifyCommit W sha st = (Returned (JS.includes (history W st) sha), st')
    /\ repoShas st' = Some (history W st)
    /\ carries_on W st st'.
Proof.
  unfold carries_on.
  destruct (repoShas st) as [shas|] eqn:H.
  - assert (Hh : history W st = shas) by (unfold history; now rewrite H).
    rewrite Hh.
    eexists. split; [apply verifyCommit_cached; exact H|].
    unfold history. simpl.
    repeat split; auto. eauto.
  - destruct (execAsync W git_log (execCalls st)) as [stdout|e] eqn:E.
    + assert (Hh : history W st = JS.split newline (JS.trim stdout))
        by (unfold history; now rewrite H, E).
      rewrite Hh.
      eexists. split; [apply verifyCommit_listed; eassumption|].
      unfold history. simpl.
      repeat split; auto; try discriminate. eauto.
    + assert (Hh : history W st = []) by (unfold history; now rewrite H, E).
      rewrite Hh.
      eexists. split; [apply (verifyCommit_failed W sha st e); assumption|].
      unfold history. simpl.
      repeat split; auto; try discriminate. eauto.
Qed.

(** ** The loops *)

(** The inner loop only logs, and finds what [has_job] finds. *)
Lemma find_job_has_job (W : World) (wanted : string) (jobs : list Job)
  (st : State) :
  exists st',
    find_job wanted jobs st = (Returned (has_job wanted jobs), st')
    /\ carries_on W st st'.
Proof.
  revert st. induction jobs as [|j rest IH]; intros st.
  - exists st. split; [reflexivity | apply carries_on_refl].
  - cbn [find_job has_job existsb]. unfold bind at 1.
    unfold core.debug.
    pose proof (carries_on_emit W Debug (CheckingJob j) st) as Hc.
    destruct (core.emit Debug (CheckingJob j) st) as [[[]|m] st1] eqn:E;
      [|discriminate E].
    simpl in Hc.
    destruct (String.eqb (job_name j) wanted); simpl.
    + destruct (JS.strict_eq (job_conclusion j) "success"); simpl.
      * exists st1. split; [reflexivity | assumption].
      * destruct (IH st1) as (st' & E' & Hc').
        exists st'. split; [exact E' | eapply carries_on_trans; eauto].
    + destruct (IH st1) as (st' & E' & Hc').
      exists st'. split; [exact E' | eapply carries_on_trans; eauto].
Qed.

Lemma carries_on_opened (W : World) (inputs : Inputs) (r : WorkflowRun)
  (st : State) : carries_on W st (opened inputs r st).
Proof.
  unfold carries_on, opened, history. simpl. repeat split; auto.
  rewrite <- !app_assoc. simpl. eauto.
Qed.

Section Scan.

Variable W : World.
Variable inputs : Inputs.
Variable octokit : Octokit.
Variables owner repo : option string.

Local Abbreviation scan' := (scan W inputs octokit owner repo).
Local Abbreviation verdict' := (verdict inputs octokit owner repo).

(** What the iteration does after the branch check, as one action. *)
Lemma scan_cons (r : WorkflowRun) (rest : list WorkflowRun)
  (lastSha : option string) (st : State) :
  scan' (r :: rest) lastSha st =
    (if JS.truthy (branch inputs)
        && negb (JS.strict_eq (head_branch r) (branch inputs))
     then scan' rest (Some (head_sha r))
     else
       unverified <- (if verify inputs
                      then ok <- verifyCommit W (head_sha r);; ret (negb ok)
                      else ret false);;
       if unverified then
         core.warning (VerifyFailed (head_sha r));;
         scan' rest (Some (head_sha r))
       else
         foundJob <- (if JS.truthy (job inputs) then
                        jobs <- await (listJobsForWorkflowRun octokit owner
                                         repo (id r));;
                        find_job (job inputs) jobs
                      else ret true);;
         if negb foundJob then scan' rest (Some (head_sha r))
         else
           core.info (if verify inputs
                      then Verified (head_sha r) (html_url r)
                      else Using (head_sha r) (html_url r));;
           ret (Some (head_sha r), Some (head_sha r)))
      (opened inputs r st).
Proof. reflexivity. Qed.

(** An iteration whose verdict is [Skipped] leaves a state from which the
    loop goes on with the runs that remain. *)
Lemma scan_skips (r : WorkflowRun) (st : State) :
  verdict' (history W st) r = Skipped ->
  exists st1,
    carries_on W st st1
    /\ forall rest lastSha,
         scan' (r :: rest) lastSha st = scan' rest (Some (head_sha r)) st1.
Proof.
  unfold verdict. intros V.
  pose proof (carries_on_opened W inputs r st) as Ho.
  destruct (JS.truthy (branch inputs)
            && negb (JS.strict_eq (head_branch r) (branch inputs))) eqn:B.
  { exists (opened inputs r st). split; [assumption|].
    intros rest lastSha. rewrite scan_cons, B. reflexivity. }
  destruct (verify inputs) eqn:Ev; simpl in V.
  - destruct (verifyCommit_history W (head_sha r) (opened inputs r st))
      as (st1 & E1 & R1 & C1).
    assert (Hh : history W (opened inputs r st) = history W st)
      by apply Ho.
    rewrite Hh in E1.
    destruct (JS.includes (history W st) (head_sha r)) eqn:I; simpl in V.
    + destruct (JS.truthy (job inputs)) eqn:J; [|discriminate V].
      destruct (listJobsForWorkflowRun octokit owner repo (id r))
        as [jobs|msg] eqn:L; [|discriminate V].
      destruct (has_job (job inputs) jobs) eqn:Hj; [discriminate V|].
      destruct (find_job_has_job W (job inputs) jobs st1) as (st2 & E2 & C2).
      exists st2. split.
      { eapply carries_on_trans; [exact Ho|].
        eapply carries_on_trans; eauto. }
      intros rest lastSha. rewrite scan_cons, B, Ev.
      unfold bind, await, ret. rewrite E1. simpl. rewrite J, L, E2, Hj.
      reflexivity.
    + eexists. split.
      2:{ intros rest lastSha. rewrite scan_cons, B, Ev.
          unfold bind, await, ret. rewrite E1. simpl. reflexivity. }
      eapply carries_on_trans; [exact Ho|].
      eapply carries_on_trans; [exact C1|]. apply carries_on_emit.
  - destruct (JS.truthy (job inputs)) eqn:J; [|discriminate V].
    destruct (listJobsForWorkflowRun octokit owner repo (id r))
      as [jobs|msg] eqn:L; [|discriminate V].
    destruct (has_job (job inputs) jobs) eqn:Hj; [discriminate V|].
    destruct (find_job_has_job W (job inputs) jobs (opened inputs r st))
      as (st2 & E2 & C2).
    exists st2. split.
    { eapply carries_on_trans; eauto. }
    intros rest lastSha. rewrite scan_cons, B, Ev.
    unfold bind, await, ret. rewrite J, L, E2, Hj. reflexivity.
Qed.

(** An iteration whose verdict is [Selected] leaves the loop with the SHA of
    its run in both variables. *)
Lemma scan_selects (r : WorkflowRun) (st : State) :
  verdict' (history W st) r = Selected ->
  exists st1,
    carries_on W st st1
    /\ forall rest lastSha,
         scan' (r :: rest) lastSha st =
           (Returned (Some (head_sha r), Some (head_sha r)), st1).
Proof.
  unfold verdict. intros V.
  pose proof (carries_on_opened W inputs r st) as Ho.
  destruct (JS.truthy (branch inputs)
            && negb (JS.strict_eq (head_branch r) (branch inputs))) eqn:B;
    [discriminate V|].
  assert (Hjob : forall st0,
             exists st2,
               (if JS.truthy (job inputs) then
                  jobs <- await (listJobsForWorkflowRun octokit owner repo
                                   (id r));;
                  find_job (job inputs) jobs
                else ret true) st0 = (Returned true, st2)
               /\ carries_on W st0 st2).
  { intros st0.
    destruct (verify inputs && negb (JS.includes (history W st) (head_sha r)));
      [discriminate V|].
    destruct (JS.truthy (job inputs)) eqn:J.
    - destruct (listJobsForWorkflowRun octokit owner repo (id r))
        as [jobs|msg] eqn:L; [|discriminate V].
      destruct (has_job (job inputs) jobs) eqn:Hj; [|discriminate V].
      destruct (find_job_has_job W (job inputs) jobs st0) as (st2 & E2 & C2).
      exists st2. unfold bind, await. rewrite E2, Hj. auto.
    - exists st0. split; [reflexivity | apply carries_on_refl]. }
  destruct (verify inputs) eqn:Ev; simpl in V.
  - destruct (verifyCommit_history W (head_sha r) (opened inputs r st))
      as (st1 & E1 & R1 & C1).
    assert (Hh : history W (opened inputs r st) = history W st)
      by apply Ho.
    rewrite Hh in E1.
    destruct (JS.includes (history W st) (head_sha r)) eqn:I;
      [|discriminate V].
    destruct (Hjob st1) as (st2 & E2 & C2).
    eexists. split.
    2:{ intros rest lastSha. rewrite scan_cons, B, Ev.
        unfold bind at 1. unfold bind at 1. rewrite E1.
        unfold ret at 1. cbn [negb]. unfold bind at 1. rewrite E2.
        cbn [negb]. unfold bind, core.info, ret. simpl. reflexivity. }
    eapply carries_on_trans; [exact Ho|].
    eapply carries_on_trans; [exact C1|].
    eapply carries_on_trans; [exact C2|]. apply carries_on_emit.
  - destruct (Hjob (opened inputs r st)) as (st2 & E2 & C2).
    eexists. split.
    2:{ intros rest lastSha. rewrite scan_cons, B, Ev.
        unfold bind at 1. unfold ret at 1. unfold bind at 1. rewrite E2.
        cbn [negb]. unfold bind, core.info, ret. simpl. reflexivity. }
    eapply carries_on_trans; [exact Ho|].
    eapply carries_on_trans; [exact C2|]. apply carries_on_emit.
Qed.

(** An iteration whose job lookup is rejected throws what the lookup
    threw. *)
Lemma scan_fails (r : WorkflowRun) (st : State) (msg : string) :
  verdict' (history W st) r = Failed msg ->
  exists st1,
    carries_on W st st1
    /\ forall rest lastSha,
         scan' (r :: rest) lastSha st = (Thrown msg, st1).
Proof.
  unfold verdict. intros V.
  pose proof (carries_on_opened W inputs r st) as Ho.
  destruct (JS.truthy (branch inputs)
            && negb (JS.strict_eq (head_branch r) (branch inputs))) eqn:B;
    [discriminate V|].
  destruct (verify inputs) eqn:Ev; simpl in V.
  - destruct (verifyCommit_history W (head_sha r) (opened inputs r st))
      as (st1 & E1 & R1 & C1).
    assert (Hh : history W (opened inputs r st) = history W st)
      by apply Ho.
    rewrite Hh in E1.
    destruct (JS.includes (history W st) (head_sha r)) eqn:I;
      [|discriminate V]. simpl in V.
    destruct (JS.truthy (job inputs)) eqn:J; [|discriminate V].
    destruct (listJobsForWorkflowRun octokit owner repo (id r))
      as [jobs|m] eqn:L.
    { destruct (has_job (job inputs) jobs); discriminate V. }
    injection V as ->.
    exists st1. split; [eapply carries_on_trans; eauto|].
    intros rest lastSha. rewrite scan_cons, B, Ev.
    unfold bind, await, ret. rewrite E1. simpl. rewrite J, L. reflexivity.
  - destruct (JS.truthy (job inputs)) eqn:J; [|discriminate V].
    destruct (listJobsForWorkflowRun octokit owner repo (id r))
      as [jobs|m] eqn:L.
    { destruct (has_job (job inputs) jobs); discriminate V. }
    injection V as ->.
    exists (opened inputs r st). split; [assumption|].
    intros rest lastSha. rewrite scan_cons, B, Ev.
    unfold bind, await, ret. rewrite J, L. reflexivity.
Qed.

End Scan.

(** ** Verdicts and checks *)

Section Verdicts.

Variable inputs : Inputs.
Variable octokit : Octokit.
Variables owner repo : option string.
Variable hist : list string.

Local Abbreviation verdict' := (verdict inputs octokit owner repo hist).
Local Abbreviation satisfies' := (satisfies_all inputs octokit owner repo hist).

Lemma recheck_false (r : WorkflowRun) :
  JS.truthy (branch inputs)
  && negb (JS.strict_eq (head_branch r) (branch inputs)) = false
  <-> branch_matches inputs r.
Proof.
  unfold branch_matches.
  rewrite andb_false_iff, truthy_false, negb_false_iff, strict_eq_true.
  reflexivity.
Qed.

Lemma unverified_false (r : WorkflowRun) :
  verify inputs && negb (JS.includes hist (head_sha r)) = false
  <-> commit_verified inputs hist r.
Proof.
  unfold commit_verified.
  rewrite andb_false_iff, negb_false_iff, includes_In.
  destruct (verify inputs); split; intros H; auto.
  - destruct H; [discriminate | auto].
  - intros E. discriminate E.
Qed.

Lemma verdict_selected (r : WorkflowRun) :
  verdict' r = Selected <-> satisfies' r.
Proof.
  unfold verdict, satisfies_all.
  rewrite <- recheck_false, <- unverified_false. unfold job_succeeded.
  destruct (JS.truthy (branch inputs)
            && negb (JS.strict_eq (head_branch r) (branch inputs))).
  { split; [discriminate | intros [H _]; discriminate H]. }
  destruct (verify inputs && negb (JS.includes hist (head_sha r))).
  { split; [discriminate | intros [_ [H _]]; discriminate H]. }
  destruct (JS.truthy (job inputs)) eqn:J.
  - apply truthy_true in J.
    destruct (listJobsForWorkflowRun octokit owner repo (id r))
      as [jobs|msg].
    + destruct (has_job (job inputs) jobs) eqn:Hj.
      * apply has_job_exists in Hj. destruct Hj as [j Hj].
        split; [intros _ | reflexivity]. repeat split; auto.
        intros _. exists jobs, j. tauto.
      * split; [discriminate|]. intros [_ [_ H]].
        destruct (H J) as (jobs' & j & E & Hj').
        injection E as <-.
        assert (has_job (job inputs) jobs = true)
          by (apply has_job_exists; eauto).
        congruence.
    + split; [discriminate|]. intros [_ [_ H]].
      destruct (H J) as (jobs' & j & E & _). discriminate E.
  - apply truthy_false in J.
    split; [intros _ | reflexivity]. repeat split; auto.
    intros N. contradiction.
Qed.

Lemma verdict_skipped (r : WorkflowRun) :
  verdict' r = Skipped -> ~ satisfies' r.
Proof.
  intros V S. apply verdict_selected in S. congruence.
Qed.

Lemma verdict_failed (r : WorkflowRun) (msg : string) :
  verdict' r = Failed msg ->
  listJobsForWorkflowRun octokit owner repo (id r) = Thrown msg.
Proof.
  unfold verdict.
  destruct (JS.truthy (branch inputs)
            && negb (JS.strict_eq (head_branch r) (branch inputs)));
    [discriminate|].
  destruct (verify inputs && negb (JS.includes hist (head_sha r)));
    [discriminate|].
  destruct (JS.truthy (job inputs)); [|discriminate].
  destruct (listJobsForWorkflowRun octokit owner repo (id r)) as [jobs|m].
  - destruct (has_job (job inputs) jobs); discriminate.
  - intros E. injection E as ->. reflexivity.
Qed.

(** A run that does not satisfy the checks, and whose job lookup is not
    rejected, is skipped. *)
Lemma unsatisfied_skipped (r : WorkflowRun) :
  ~ satisfies' r ->
  (forall msg,
      listJobsForWorkflowRun octokit owner repo (id r) <> Thrown msg) ->
  verdict' r = Skipped.
Proof.
  intros N L. destruct (verdict' r) as [| |msg] eqn:V.
  - apply verdict_selected in V. contradiction.
  - reflexivity.
  - apply verdict_failed in V. elim (L msg V).
Qed.

(** The runs of a list are all skipped, or there is a first one that is
    not. *)
Lemma first_not_skipped (runs : list WorkflowRun) :
  Forall (fun r => verdict' r = Skipped) runs
  \/ exists pre r post,
       runs = pre ++ r :: post
       /\ Forall (fun x => verdict' x = Skipped) pre
       /\ verdict' r <> Skipped.
Proof.
  induction runs as [|x rest IH].
  - left. constructor.
  - destruct (verdict' x) as [| |msg] eqn:V.
    + right. exists [], x, rest. repeat split; auto. congruence.
    + destruct IH as [IH | (pre & r & post & E & Hpre & Hr)].
      * left. constructor; assumption.
      * right. exists (x :: pre), r, post. rewrite E.
        repeat split; auto.
    + right. exists [], x, rest. repeat split; auto. congruence.
Qed.

End Verdicts.

(** ** The loop over a whole list *)

Section ScanList.

Variable W : World.
Variable inputs : Inputs.
Variable octokit : Octokit.
Variables owner repo : option string.

Local Abbreviation scan' := (scan W inputs octokit owner repo).
Local Abbreviation verdict' := (verdict inputs octokit owner repo).

Lemma lastSha_after_app (pre rest : list WorkflowRun) (ls : option string) :
  lastSha_after (pre ++ rest) ls = lastSha_after rest (lastSha_after pre ls).
Proof. unfold lastSha_after. apply fold_left_app. Qed.

Lemma lastSha_after_last (front : list WorkflowRun) (r : WorkflowRun)
  (ls : option string) :
  lastSha_after (front ++ [r]) ls = Some (head_sha r).
Proof. rewrite lastSha_after_app. reflexivity. Qed.

(** Skipped runs in front are passed over, whatever follows them. *)
Lemma scan_prefix (pre : list WorkflowRun) (st : State) :
  Forall (fun r => verdict' (history W st) r = Skipped) pre ->
  exists st1,
    carries_on W st st1
    /\ forall rest lastSha,
         scan' (pre ++ rest) lastSha st =
           scan' rest (lastSha_after pre lastSha) st1.
Proof.
  revert st. induction pre as [|r pre IH]; intros st Hpre.
  - exists st. split; [apply carries_on_refl | reflexivity].
  - inversion Hpre as [|? ? Hr Hpre']; subst.
    destruct (scan_skips W inputs octokit owner repo r st Hr)
      as (st1 & C1 & E1).
    assert (Hh : history W st1 = history W st) by apply C1.
    rewrite <- Hh in Hpre'.
    destruct (IH st1 Hpre') as (st2 & C2 & E2).
    exists st2. split; [eapply carries_on_trans; eauto|].
    intros rest lastSha. simpl app.
    rewrite E1, E2. reflexivity.
Qed.

(** When every run is skipped the loop runs to its end: [sha] is still
    undefined and [lastSha] is the SHA of the run looked at last. *)
Lemma scan_all_skipped (runs : list WorkflowRun) (lastSha : option string)
  (st : State) :
  Forall (fun r => verdict' (history W st) r = Skipped) runs ->
  exists st',
    scan' runs lastSha st = (Returned (lastSha_after runs lastSha, None), st')
    /\ carries_on W st st'.
Proof.
  intros H. destruct (scan_prefix runs st H) as (st1 & C1 & E1).
  exists st1. split; [|assumption].
  specialize (E1 [] lastSha). rewrite app_nil_r in E1. rewrite E1.
  reflexivity.
Qed.

End ScanList.

(** ** Sorting *)

Section SortFacts.

Context {A : Type} (compareFn : A -> A -> Z).

Lemma insert_perm (x : A) (xs : list A) :
  Permutation (JS.insert compareFn x xs) (x :: xs).
Proof.
  induction xs as [|y ys IH]; simpl.
  - apply Permutation_refl.
  - destruct (compareFn x y <=? 0)%Z.
    + apply Permutation_refl.
    + eapply perm_trans; [apply perm_skip, IH | apply perm_swap].
Qed.

Lemma sort_perm (xs : list A) : Permutation (JS.sort compareFn xs) xs.
Proof.
  induction xs as [|x xs IH]; simpl.
  - constructor.
  - eapply perm_trans; [apply insert_perm | apply perm_skip, IH].
Qed.

Lemma sort_In (x : A) (xs : list A) :
  In x (JS.sort compareFn xs) <-> In x xs.
Proof.
  split; apply Permutation_in;
    [apply sort_perm | apply Permutation_sym, sort_perm].
Qed.

End SortFacts.

Lemma insert_newer_first (x : WorkflowRun) (xs : list WorkflowRun) :
  StronglySorted newer_first xs ->
  StronglySorted newer_first (JS.insert by_created_at x xs).
Proof.
  induction 1 as [|y ys Hs IH Hy]; simpl.
  - repeat constructor.
  - unfold by_created_at at 1.
    destruct (Z.leb_spec (created_at y - created_at x) 0) as [L|L].
    + constructor; [constructor; assumption|].
      constructor; [unfold newer_first; lia|].
      eapply Forall_impl; [|exact Hy].
      unfold newer_first. intros z Hz. lia.
    + constructor; [exact IH|].
      eapply Permutation_Forall;
        [apply Permutation_sym, insert_perm|].
      constructor; [unfold newer_first; lia | exact Hy].
Qed.

Lemma sort_newer_first (xs : list WorkflowRun) :
  StronglySorted newer_first (JS.sort by_created_at xs).
Proof.
  induction xs as [|x xs IH]; simpl.
  - constructor.
  - apply insert_newer_first, IH.
Qed.

Lemma insert_created (t : Z) (x : WorkflowRun) (xs : list WorkflowRun) :
  filter (created t) (JS.insert by_created_at x xs) =
  filter (created t) (x :: xs).
Proof.
  induction xs as [|y ys IH]; [reflexivity|].
  cbn [JS.insert]. unfold by_created_at at 1.
  destruct (Z.leb_spec (created_at y - created_at x) 0) as [L|L];
    [reflexivity|].
  cbn [filter] in *. rewrite IH. unfold created.
  destruct (Z.eqb_spec (created_at x) t), (Z.eqb_spec (created_at y) t);
    try reflexivity.
  lia.
Qed.

Lemma sort_created (t : Z) (xs : list WorkflowRun) :
  filter (created t) (JS.sort by_created_at xs) = filter (created t) xs.
Proof.
  induction xs as [|x xs IH]; [reflexivity|].
  cbn [JS.sort fold_right]. rewrite insert_created.
  cbn [filter]. fold (JS.sort by_created_at xs). rewrite IH. reflexivity.
Qed.

Lemma sorted_before (a b : WorkflowRun) (pre mid post : list WorkflowRun) :
  StronglySorted newer_first (pre ++ a :: mid ++ b :: post) ->
  newer_first a b.
Proof.
  induction pre as [|x pre IH]; simpl; intros H.
  - apply StronglySorted_inv in H. destruct H as [_ H].
    rewrite Forall_forall in H. apply H.
    apply in_or_app. right. left. reflexivity.
  - apply StronglySorted_inv in H. apply IH, H.
Qed.

(** ** The selection as a whole *)

Section Select.

Variable W : World.
Variable inputs : Inputs.
Variable octokit : Octokit.
Variables owner repo : option string.

Lemma carries_on_announced (n : nat) (st : State) :
  carries_on W st (announced n st).
Proof.
  unfold carries_on, announced, history. simpl. repeat split; auto. eauto.
Qed.

Lemma select_unfold (workflow_runs : list WorkflowRun) (st : State) :
  select W inputs octokit owner repo workflow_runs st =
    (found <- find_sha W inputs octokit owner repo
                (ranked inputs workflow_runs);;
     let '(lastSha, sha) := found in
     sha <- (if negb (JS.truthy_opt sha) then
               core.warning
                 (UnableToDetermine
                    (List.length (ranked inputs workflow_runs)));;
               ret lastSha
             else ret sha);;
     core.setOutput "sha" sha)
      (announced (List.length (ranked inputs workflow_runs)) st).
Proof. reflexivity. Qed.

(** When the loop ends without a SHA, the warning is logged and [lastSha]
    is what is output. *)
Lemma select_without_sha (workflow_runs : list WorkflowRun) (st st1 : State)
  (lastSha : option string) :
  find_sha W inputs octokit owner repo (ranked inputs workflow_runs)
    (announced (List.length (ranked inputs workflow_runs)) st)
    = (Returned (lastSha, None), st1) ->
  select W inputs octokit owner repo workflow_runs st =
    (Returned tt,
     {| repoShas := repoShas st1; execCalls := execCalls st1;
        log := log st1
               ++ [(Warning,
                    UnableToDetermine
                      (List.length (ranked inputs workflow_runs)))];
        outputs := outputs st1 ++ [("sha", lastSha)];
        failure := failure st1 |}).
Proof.
  intros E. rewrite select_unfold. unfold bind at 1. rewrite E.
  reflexivity.
Qed.

End Select.

(** ** Facts used by several claims *)

Lemma bind_ext {A B : Type} (m : Action A) (k k' : A -> Action B)
  (st : State) :
  (forall a st1, k a st1 = k' a st1) -> bind m k st = bind m k' st.
Proof.
  intros H. unfold bind. destruct (m st) as [[a|msg] st1]; auto.
Qed.

(** A cache that is empty answers no to everything and is left alone. *)
Lemma verify_each_nothing (W : World) (shas : list string) (st : State) :
  repoShas st = Some [] ->
  exists st',
    verify_each W shas st
      = (Returned (repeat false (List.length shas)), st')
    /\ execCalls st' = execCalls st
    /\ repoShas st' = Some [].
Proof.
  revert st. induction shas as [|sha rest IH]; intros st H.
  - exists st. auto.
  - cbn [verify_each]. unfold bind at 1.
    rewrite (verifyCommit_cached W sha st [] H).
    destruct (IH {| repoShas := Some []; execCalls := execCalls st;
                    log := log st ++ [(Info, LookingForSha sha)];
                    outputs := outputs st; failure := failure st |}
                eq_refl) as (st' & E & C & R).
    exists st'. unfold bind. rewrite E. simpl. auto.
Qed.

(** With verification on and an empty history every run is skipped. *)
Lemma verdict_unverifiable (inputs : Inputs) (octokit : Octokit)
  (owner repo : option string) (r : WorkflowRun) :
  verify inputs = true ->
  verdict inputs octokit owner repo [] r = Skipped.
Proof.
  intros H. unfold verdict. rewrite H. simpl.
  destruct (JS.truthy (branch inputs)
            && negb (JS.strict_eq (head_branch r) (branch inputs)));
    reflexivity.
Qed.

(** Every ranked run was kept by the filter, so the branch check of the
    loop finds nothing to skip. *)
Lemma ranked_recheck (inputs : Inputs) (workflow_runs : list WorkflowRun) :
  Forall (fun r => JS.truthy (branch inputs)
                   && negb (JS.strict_eq (head_branch r) (branch inputs))
                   = false)
    (ranked inputs workflow_runs).
Proof.
  rewrite Forall_forall. intros x Hx. unfold ranked in Hx.
  apply sort_In, filter_In in Hx. destruct Hx as [_ K]. unfold keep in K.
  apply andb_true_iff in K. destruct K as [K _].
  destruct (JS.truthy (branch inputs)),
    (JS.strict_eq (head_branch x) (branch inputs)); simpl in *; congruence.
Qed.

Lemma scan_unchecked_scan (W : World) (inputs : Inputs) (octokit : Octokit)
  (owner repo : option string) (runs : list WorkflowRun) :
  Forall (fun r => JS.truthy (branch inputs)
                   && negb (JS.strict_eq (head_branch r) (branch inputs))
                   = false) runs ->
  forall lastSha st,
    scan_unchecked W inputs octokit owner repo runs lastSha st
    = scan W inputs octokit owner repo runs lastSha st.
Proof.
  induction 1 as [|r rest Hr Hrest IH]; intros lastSha st; [reflexivity|].
  cbn [scan_unchecked scan]. rewrite Hr.
  do 3 (apply bind_ext; intros _ ?).
  apply bind_ext. intros unverified ?.
  destruct unverified.
  - apply bind_ext. intros _ ?. apply IH.
  - apply bind_ext. intros foundJob ?.
    destruct foundJob; simpl; [reflexivity | apply IH].
Qed.

(** The first run that is not skipped decides: when it is selected, the loop
    returns its SHA whatever the runs after it are. *)
Lemma scan_first_selected (W : World) (inputs : Inputs) (octokit : Octokit)
  (owner repo : option string) (pre post : list WorkflowRun)
  (r : WorkflowRun) (lastSha : option string) (st : State) :
  Forall (fun x => verdict inputs octokit owner repo (history W st) x
                   = Skipped) pre ->
  verdict inputs octokit owner repo (history W st) r = Selected ->
  exists st',
    scan W inputs octokit owner repo (pre ++ r :: post) lastSha st
      = (Returned (Some (head_sha r), Some (head_sha r)), st')
    /\ carries_on W st st'.
Proof.
  intros Hpre Hr.
  destruct (scan_prefix W inputs octokit owner repo pre st Hpre)
    as (st1 & C1 & E1).
  assert (Hh : history W st1 = history W st) by apply C1.
  rewrite <- Hh in Hr.
  destruct (scan_selects W inputs octokit owner repo r st1 Hr)
    as (st2 & C2 & E2).
  exists st2. rewrite E1, E2.
  split; [reflexivity | eapply carries_on_trans; eauto].
Qed.

(** ** The action on the concrete worlds *)

(** Without job and branch inputs the newest successful run is taken; the
    workflow is found although its name differs in case. *)
Example run_takes_newest_success :
  outputs (snd (run (Scenario.with_git "" "" "false") initial))
    = [("sha", Some "bbb")]
  /\ failure (snd (run (Scenario.with_git "" "" "false") initial)) = None.
Proof. split; reflexivity. Qed.

(** With the job "test" asked for and verification on, the runs without a
    successful job of that name and the runs whose commit is not in the
    history are passed over. *)
Example run_takes_verified_job :
  outputs (snd (run (Scenario.with_git "" "test" "true") initial))
    = [("sha", Some "ccc")]
  /\ execCalls (snd (run (Scenario.with_git "" "test" "true") initial)) = 1.
Proof. split; reflexivity. Qed.

(** A branch nobody built leaves nothing to rank. *)
Example run_on_unbuilt_branch :
  outputs (snd (run (Scenario.with_git "release" "" "false") initial))
    = [("sha", None)].
Proof. reflexivity. Qed.

(** * The claims *)

(** C1. When the scan of the ranked runs leaves the loop with a primary SHA,
    the ranked sequence splits into runs that each fail some enabled check,
    followed by the run whose head SHA it is; that run passes the branch
    check, the commit verification when [verify] is enabled and the job
    check when a job is asked for.  The loop stops at that run: [lastSha] is
    its SHA too, and the same result and state come out when the runs after
    it are dropped. *)
Theorem scan_yields_first_satisfying (W : World) (inputs : Inputs)
  (octokit : Octokit) (owner repo : option string)
  (workflow_runs : list WorkflowRun) (st st' : State)
  (lastSha : option string) (s : string) :
  scan W inputs octokit owner repo (ranked inputs workflow_runs) None st
    = (Returned (lastSha, Some s), st') ->
  exists pre r post,
    ranked inputs workflow_runs = pre ++ r :: post
    /\ Forall (fun x => ~ satisfies_all inputs octokit owner repo
                          (history W st) x) pre
    /\ satisfies_all inputs octokit owner repo (history W st) r
    /\ s = head_sha r
    /\ lastSha = Some (head_sha r)
    /\ scan W inputs octokit owner repo (pre ++ [r]) None st
       = (Returned (lastSha, Some s), st').
Proof.
  intros E.
  destruct (first_not_skipped inputs octokit owner repo (history W st)
              (ranked inputs workflow_runs))
    as [Hall | (pre & r & post & Er & Hpre & Hr)].
  - destruct (scan_all_skipped W inputs octokit owner repo _ None st Hall)
      as (st1 & E1 & _).
    rewrite E1 in E. discriminate E.
  - destruct (scan_prefix W inputs octokit owner repo pre st Hpre)
      as (st1 & C1 & E1).
    assert (Hh : history W st1 = history W st) by apply C1.
    exists pre, r, post. split; [exact Er|].
    split.
    { eapply Forall_impl; [|exact Hpre]. intros x Hx.
      apply verdict_skipped, Hx. }
    rewrite Er, E1 in E.
    destruct (verdict inputs octokit owner repo (history W st) r)
      as [| |msg] eqn:V.
    + rewrite <- Hh in V.
      destruct (scan_selects W inputs octokit owner repo r st1 V)
        as (st2 & C2 & E2).
      rewrite E2 in E. injection E as <- <- <-.
      rewrite Hh in V. apply verdict_selected in V.
      repeat split; try apply V.
      rewrite E1, E2. reflexivity.
    + congruence.
    + rewrite <- Hh in V.
      destruct (scan_fails W inputs octokit owner repo r st1 msg V)
        as (st2 & C2 & E2).
      rewrite E2 in E. discriminate E.
Qed.

Lemma scan_yields_first_satisfying_witness :
  exists pre r post,
    ranked Scenario.verifying_test Scenario.fetched = pre ++ r :: post
    /\ Forall (fun x => ~ satisfies_all Scenario.verifying_test
                          Scenario.octokit Scenario.owner Scenario.repository
                          (history (Scenario.with_git "" "test" "true")
                             initial) x) pre
    /\ satisfies_all Scenario.verifying_test Scenario.octokit Scenario.owner
         Scenario.repository
         (history (Scenario.with_git "" "test" "true") initial) r
    /\ "ccc" = head_sha r
    /\ Some "ccc" = Some (head_sha r)
    /\ scan (Scenario.with_git "" "test" "true") Scenario.verifying_test
         Scenario.octokit Scenario.owner Scenario.repository (pre ++ [r])
         None initial
       = (Returned (Some "ccc", Some "ccc"),
          snd (scan (Scenario.with_git "" "test" "true")
                 Scenario.verifying_test Scenario.octokit Scenario.owner
                 Scenario.repository
                 (ranked Scenario.verifying_test Scenario.fetched) None
                 initial)).
Proof.
  apply (scan_yields_first_satisfying
           (Scenario.with_git "" "test" "true") Scenario.verifying_test
           Scenario.octokit Scenario.owner Scenario.repository
           Scenario.fetched initial).
  vm_compute. reflexivity.
Defined.

(** C2. A run is kept by the filter before the ranking exactly when the
    branch input is empty or equals the branch of the run, and the job
    input is not empty or the conclusion of the run is "success". *)
Theorem filter_keeps_iff (inputs : Inputs) (workflow_runs : list WorkflowRun)
  (x : WorkflowRun) :
  In x (filter (keep inputs) workflow_runs) <->
  In x workflow_runs
  /\ (branch inputs = "" \/ head_branch x = Some (branch inputs))
  /\ (job inputs <> "" \/ conclusion x = Some "success").
Proof.
  rewrite filter_In. unfold keep.
  rewrite andb_true_iff, !orb_true_iff, negb_true_iff.
  rewrite truthy_false, truthy_true, !strict_eq_true. reflexivity.
Qed.

(** C3, as the specification words it, fails: with verification on and a
    listing command that fails, none of the three ranked runs passes, and
    the SHA that is output is that of the last, oldest run of the ranking,
    not that of the first one. *)
Lemma fallback_is_not_first_run :
  map head_sha (ranked Scenario.verifying Scenario.fetched)
    = ["bbb"; "ddd"; "ccc"]
  /\ Forall (fun x => ~ satisfies_all Scenario.verifying Scenario.octokit
                        Scenario.owner Scenario.repository
                        (history Scenario.broken initial) x)
       (ranked Scenario.verifying Scenario.fetched)
  /\ outputs (snd (select Scenario.broken Scenario.verifying Scenario.octokit
                     Scenario.owner Scenario.repository Scenario.fetched
                     initial))
     = [("sha", Some "ccc")]
  /\ Some "ccc"
     <> option_map head_sha
          (hd_error (ranked Scenario.verifying Scenario.fetched)).
Proof.
  split; [reflexivity|]. split.
  - assert (E : ranked Scenario.verifying Scenario.fetched
                = [Scenario.run_b; Scenario.run_d; Scenario.run_c])
      by reflexivity.
    rewrite E.
    repeat constructor; intros (_ & Hv & _);
      specialize (Hv eq_refl); vm_compute in Hv; exact Hv.
  - split; [vm_compute; reflexivity|]. vm_compute. discriminate.
Qed.

(** C3, amended.  When the ranked sequence is not empty, none of its runs
    satisfies all enabled checks and no job lookup is rejected, the SHA that
    is output is [lastSha], the head SHA of the last run of the ranked
    sequence, which is the oldest one, and the last entry of the log is the
    warning that the SHA could not be determined. *)
Theorem fallback_is_last_run (W : World) (inputs : Inputs)
  (octokit : Octokit) (owner repo : option string)
  (workflow_runs front : list WorkflowRun) (r : WorkflowRun) (st : State) :
  ranked inputs workflow_runs = front ++ [r] ->
  Forall (fun x => ~ satisfies_all inputs octokit owner repo
                        (history W st) x)
    (ranked inputs workflow_runs) ->
  (forall x msg,
      In x (ranked inputs workflow_runs) ->
      listJobsForWorkflowRun octokit owner repo (id x) <> Thrown msg) ->
  exists st' events,
    select W inputs octokit owner repo workflow_runs st = (Returned tt, st')
    /\ outputs st' = outputs st ++ [("sha", Some (head_sha r))]
    /\ failure st' = failure st
    /\ log st' =
         log st ++ events
           ++ [(Warning,
                UnableToDetermine
                  (List.length (ranked inputs workflow_runs)))].
Proof.
  intros Er Hnone Hjobs.
  set (runs := ranked inputs workflow_runs) in *.
  set (st0 := announced (List.length runs) st).
  pose proof (carries_on_announced W (List.length runs) st) as C0.
  fold st0 in C0.
  assert (Hh : history W st0 = history W st) by apply C0.
  assert (Hs : Forall (fun x => verdict inputs octokit owner repo
                                  (history W st0) x = Skipped) runs).
  { rewrite Hh. rewrite Forall_forall in *. intros x Hx.
    apply unsatisfied_skipped; [apply Hnone, Hx|].
    intros msg. apply Hjobs, Hx. }
  destruct (scan_all_skipped W inputs octokit owner repo runs None st0 Hs)
    as (st1 & E1 & C1).
  assert (Ef : find_sha W inputs octokit owner repo runs st0
               = (Returned (Some (head_sha r), None), st1)).
  { unfold find_sha. rewrite Er, length_app. simpl.
    replace (0 <? List.length front + 1)%nat with true
      by (symmetry; apply Nat.ltb_lt; lia).
    rewrite <- Er, E1. rewrite Er, lastSha_after_last. reflexivity. }
  pose proof (carries_on_trans W _ _ _ C0 C1)
    as (Ho & Hf & _ & _ & _ & events & Hl).
  eexists. exists events. split.
  { apply (select_without_sha W inputs octokit owner repo workflow_runs st
             st1 (Some (head_sha r))). exact Ef. }
  simpl. rewrite Ho, Hf, Hl. rewrite <- app_assoc. auto.
Qed.

Lemma fallback_is_last_run_witness :
  exists st' events,
    select Scenario.broken Scenario.verifying Scenario.octokit Scenario.owner
      Scenario.repository Scenario.fetched initial = (Returned tt, st')
    /\ outputs st' = outputs initial ++ [("sha", Some (head_sha Scenario.run_c))]
    /\ failure st' = failure initial
    /\ log st' =
         log initial ++ events
           ++ [(Warning,
                UnableToDetermine
                  (List.length
                     (ranked Scenario.verifying Scenario.fetched)))].
Proof.
  apply (fallback_is_last_run Scenario.broken Scenario.verifying
           Scenario.octokit Scenario.owner Scenario.repository
           Scenario.fetched [Scenario.run_b; Scenario.run_d] Scenario.run_c
           initial).
  - reflexivity.
  - assert (E : ranked Scenario.verifying Scenario.fetched
                = [Scenario.run_b; Scenario.run_d; Scenario.run_c])
      by reflexivity.
    rewrite E.
    repeat constructor; intros (_ & Hv & _);
      specialize (Hv eq_refl); vm_compute in Hv; exact Hv.
  - intros x msg _. simpl. discriminate.
Defined.

(** C4. The ranked runs are in descending order of their created
    timestamps: of two runs in the output, the one that comes first was
    created no earlier than the other.  The ranking permutes the kept runs,
    and runs created at the same instant stay in the order in which they
    were fetched. *)
Theorem ranked_descending_stable (inputs : Inputs)
  (workflow_runs : list WorkflowRun) :
  (forall pre a mid b post,
      ranked inputs workflow_runs = pre ++ a :: mid ++ b :: post ->
      (created_at a >= created_at b)%Z)
  /\ Permutation (ranked inputs workflow_runs)
       (filter (keep inputs) workflow_runs)
  /\ (forall t,
         filter (created t) (ranked inputs workflow_runs)
         = filter (created t) (filter (keep inputs) workflow_runs)).
Proof.
  unfold ranked. split; [|split].
  - intros pre a mid b post E.
    pose proof (sort_newer_first (filter (keep inputs) workflow_runs)) as S.
    rewrite E in S. apply sorted_before in S. unfold newer_first in S. lia.
  - apply sort_perm.
  - intros t. apply sort_created.
Qed.

Lemma ranked_descending_stable_witness :
  ranked Scenario.wanting_test Scenario.fetched
    = [Scenario.run_a; Scenario.run_b; Scenario.run_d; Scenario.run_c]
  /\ (created_at Scenario.run_a >= created_at Scenario.run_c)%Z
  /\ filter (created 200) (ranked Scenario.wanting_test Scenario.fetched)
     = [Scenario.run_b; Scenario.run_d].
Proof.
  split; [reflexivity|]. split.
  - apply (proj1 (ranked_descending_stable Scenario.wanting_test
                    Scenario.fetched)
             [] Scenario.run_a [Scenario.run_b; Scenario.run_d]
             Scenario.run_c []).
    reflexivity.
  - rewrite (proj2 (proj2 (ranked_descending_stable Scenario.wanting_test
                             Scenario.fetched)) 200%Z).
    reflexivity.
Defined.

(** C5, as the specification words it, fails: with no run at all the
    warning that the SHA could not be determined is logged. *)
Lemma no_runs_still_warns :
  ranked Scenario.plain [] = []
  /\ In (Warning, UnableToDetermine 0)
       (log (snd (select (Scenario.with_git "" "" "false") Scenario.plain
                    Scenario.octokit Scenario.owner Scenario.repository []
                    initial))).
Proof.
  split; [reflexivity|]. vm_compute. right. right. left. reflexivity.
Qed.

(** C5, amended.  When the ranked sequence is empty the loop is not
    entered: [lastSha] and [sha] are both undefined, the action logs that it
    found no previous runs and then logs the warning that the SHA could not
    be determined, and the output [sha] is set to undefined. *)
Theorem no_runs_no_sha (W : World) (inputs : Inputs) (octokit : Octokit)
  (owner repo : option string) (workflow_runs : list WorkflowRun)
  (st : State) :
  ranked inputs workflow_runs = [] ->
  fst (find_sha W inputs octokit owner repo (ranked inputs workflow_runs)
         (announced 0 st))
    = Returned (None, None)
  /\ select W inputs octokit owner repo workflow_runs st =
       (Returned tt,
        {| repoShas := repoShas st; execCalls := execCalls st;
           log := log st
                  ++ [(Debug, FoundRuns 0);
                      (Info, NoPreviousRuns (branch inputs));
                      (Warning, UnableToDetermine 0)];
           outputs := outputs st ++ [("sha", None)];
           failure := failure st |}).
Proof.
  intros E. split.
  - rewrite E. reflexivity.
  - erewrite select_without_sha; rewrite E; simpl.
    2:{ unfold find_sha, bind, core.info, core.emit, ret. simpl.
        reflexivity. }
    simpl. rewrite <- !app_assoc. reflexivity.
Qed.

Lemma no_runs_no_sha_witness :
  fst (find_sha (Scenario.with_git "release" "" "false") Scenario.on_release
         Scenario.octokit Scenario.owner Scenario.repository
         (ranked Scenario.on_release Scenario.fetched) (announced 0 initial))
    = Returned (None, None)
  /\ select (Scenario.with_git "release" "" "false") Scenario.on_release
       Scenario.octokit Scenario.owner Scenario.repository Scenario.fetched
       initial =
       (Returned tt,
        {| repoShas := repoShas initial; execCalls := execCalls initial;
           log := log initial
                  ++ [(Debug, FoundRuns 0);
                      (Info, NoPreviousRuns (branch Scenario.on_release));
                      (Warning, UnableToDetermine 0)];
           outputs := outputs initial ++ [("sha", None)];
           failure := failure initial |}).
Proof.
  apply (no_runs_no_sha (Scenario.with_git "release" "" "false")
           Scenario.on_release Scenario.octokit Scenario.owner
           Scenario.repository Scenario.fetched initial).
  reflexivity.
Defined.

(** C6. When the cache is not yet filled and the listing command fails, the
    call of the verifier returns false, the cache becomes the empty list, a
    warning carrying the message of the error is logged, and the command
    was invoked once.  In every later state of the process, in which the
    cache is therefore the empty list, any series of calls returns false
    each time, does not invoke the command again and leaves the cache
    empty. *)
Theorem failed_listing_is_final (W : World) (sha e : string) (st : State) :
  repoShas st = None ->
  execAsync W git_log (execCalls st) = Thrown e ->
  exists st',
    verifyCommit W sha st = (Returned false, st')
    /\ repoShas st' = Some []
    /\ In (Warning, ShaListError e) (log st')
    /\ execCalls st' = S (execCalls st)
    /\ forall later shas,
         repoShas later = repoShas st' ->
         exists st'',
           verify_each W shas later
             = (Returned (repeat false (List.length shas)), st'')
           /\ execCalls st'' = execCalls later
           /\ repoShas st'' = Some [].
Proof.
  intros H E. eexists. split; [apply verifyCommit_failed; eassumption|].
  simpl. repeat split.
  - apply in_or_app. right. right. left. reflexivity.
  - intros later shas R. apply verify_each_nothing, R.
Qed.

Lemma failed_listing_is_final_witness :
  exists st',
    verifyCommit Scenario.broken "ccc" initial = (Returned false, st')
    /\ repoShas st' = Some []
    /\ In (Warning, ShaListError "Command failed") (log st')
    /\ execCalls st' = S (execCalls initial)
    /\ forall later shas,
         repoShas later = repoShas st' ->
         exists st'',
           verify_each Scenario.broken shas later
             = (Returned (repeat false (List.length shas)), st'')
           /\ execCalls st'' = execCalls later
           /\ repoShas st'' = Some [].
Proof.
  apply (failed_listing_is_final Scenario.broken "ccc" "Command failed"
           initial); reflexivity.
Defined.

(** C7. When the cache is not yet filled and the listing command succeeds,
    two calls of the verifier with the same SHA return the same boolean and
    the command is invoked once in all.  Once the cache is filled, two
    calls with the same SHA return the same boolean and invoke nothing. *)
Theorem verify_twice_lists_once (W : World) (sha stdout : string)
  (st : State) :
  repoShas st = None ->
  execAsync W git_log (execCalls st) = Returned stdout ->
  exists b st1 st2,
    verifyCommit W sha st = (Returned b, st1)
    /\ verifyCommit W sha st1 = (Returned b, st2)
    /\ execCalls st2 = S (execCalls st)
    /\ repoShas st2 = repoShas st1
    /\ forall later sha',
         repoShas later = repoShas st1 ->
         exists b' st3 st4,
           verifyCommit W sha' later = (Returned b', st3)
           /\ verifyCommit W sha' st3 = (Returned b', st4)
           /\ execCalls st4 = execCalls later
           /\ repoShas st4 = repoShas later.
Proof.
  intros H E. do 3 eexists.
  split; [apply verifyCommit_listed; eassumption|].
  split; [apply verifyCommit_cached; reflexivity|].
  simpl. repeat split.
  intros later sha' R. do 3 eexists.
  split; [apply verifyCommit_cached; exact R|].
  split; [apply verifyCommit_cached; reflexivity|].
  simpl. auto.
Qed.

Lemma verify_twice_lists_once_witness :
  exists b st1 st2,
    verifyCommit (Scenario.with_git "" "" "true") "bbb" initial
      = (Returned b, st1)
    /\ verifyCommit (Scenario.with_git "" "" "true") "bbb" st1
       = (Returned b, st2)
    /\ execCalls st2 = S (execCalls initial)
    /\ repoShas st2 = repoShas st1
    /\ forall later sha',
         repoShas later = repoShas st1 ->
         exists b' st3 st4,
           verifyCommit (Scenario.with_git "" "" "true") sha' later
             = (Returned b', st3)
           /\ verifyCommit (Scenario.with_git "" "" "true") sha' st3
              = (Returned b', st4)
           /\ execCalls st4 = execCalls later
           /\ repoShas st4 = repoShas later.
Proof.
  apply (verify_twice_lists_once (Scenario.with_git "" "" "true") "bbb"
           Scenario.stdout_ok initial); reflexivity.
Defined.

(** C8. With a job asked for, the inner loop over the fetched jobs ends
    with [foundJob] true exactly when some job has that very name and the
    conclusion "success".  For a run that passed the branch check and the
    verification: when there is such a job the loop stops with the SHA of
    the run, and when there is none the run is skipped and the loop goes on
    with the runs that remain. *)
Theorem job_check_iff (W : World) (inputs : Inputs) (octokit : Octokit)
  (owner repo : option string) (r : WorkflowRun) (jobs : list Job)
  (st : State) :
  job inputs <> "" ->
  branch_matches inputs r ->
  commit_verified inputs (history W st) r ->
  listJobsForWorkflowRun octokit owner repo (id r) = Returned jobs ->
  (forall st0,
      exists foundJob st1,
        find_job (job inputs) jobs st0 = (Returned foundJob, st1)
        /\ (foundJob = true <->
            exists j, In j jobs /\ job_name j = job inputs
                      /\ job_conclusion j = Some "success"))
  /\ ((exists j, In j jobs /\ job_name j = job inputs
                 /\ job_conclusion j = Some "success") ->
      exists st1,
        forall rest lastSha,
          scan W inputs octokit owner repo (r :: rest) lastSha st
          = (Returned (Some (head_sha r), Some (head_sha r)), st1))
  /\ (~ (exists j, In j jobs /\ job_name j = job inputs
                   /\ job_conclusion j = Some "success") ->
      exists st1,
        carries_on W st st1
        /\ forall rest lastSha,
             scan W inputs octokit owner repo (r :: rest) lastSha st
             = scan W inputs octokit owner repo rest (Some (head_sha r))
                 st1).
Proof.
  intros J B V L. split; [|split].
  - intros st0.
    destruct (find_job_has_job W (job inputs) jobs st0) as (st1 & E & _).
    exists (has_job (job inputs) jobs), st1.
    split; [exact E | apply has_job_exists].
  - intros (j & Hj).
    assert (S : satisfies_all inputs octokit owner repo (history W st) r).
    { repeat split; auto. intros _. exists jobs, j. tauto. }
    apply verdict_selected in S.
    destruct (scan_selects W inputs octokit owner repo r st S)
      as (st1 & _ & E).
    exists st1. exact E.
  - intros N. apply scan_skips. apply unsatisfied_skipped.
    + intros (_ & _ & S). destruct (S J) as (jobs' & j & E & Hj).
      rewrite L in E. injection E as <-. apply N. exists j. exact Hj.
    + intros msg. rewrite L. discriminate.
Qed.

Lemma job_check_iff_witness :
  (forall st0,
      exists foundJob st1,
        find_job (job Scenario.wanting_test) (Scenario.jobs_of 1) st0
          = (Returned foundJob, st1)
        /\ (foundJob = true <->
            exists j, In j (Scenario.jobs_of 1)
                      /\ job_name j = job Scenario.wanting_test
                      /\ job_conclusion j = Some "success"))
  /\ ((exists j, In j (Scenario.jobs_of 1)
                 /\ job_name j = job Scenario.wanting_test
                 /\ job_conclusion j = Some "success") ->
      exists st1,
        forall rest lastSha,
          scan (Scenario.with_git "" "test" "false") Scenario.wanting_test
            Scenario.octokit Scenario.owner Scenario.repository
            (Scenario.run_a :: rest) lastSha initial
          = (Returned (Some (head_sha Scenario.run_a),
                       Some (head_sha Scenario.run_a)), st1))
  /\ (~ (exists j, In j (Scenario.jobs_of 1)
                   /\ job_name j = job Scenario.wanting_test
                   /\ job_conclusion j = Some "success") ->
      exists st1,
        carries_on (Scenario.with_git "" "test" "false") initial st1
        /\ forall rest lastSha,
             scan (Scenario.with_git "" "test" "false")
               Scenario.wanting_test Scenario.octokit Scenario.owner
               Scenario.repository (Scenario.run_a :: rest) lastSha initial
             = scan (Scenario.with_git "" "test" "false")
                 Scenario.wanting_test Scenario.octokit Scenario.owner
                 Scenario.repository rest (Some (head_sha Scenario.run_a))
                 st1).
Proof.
  apply (job_check_iff (Scenario.with_git "" "test" "false")
           Scenario.wanting_test Scenario.octokit Scenario.owner
           Scenario.repository Scenario.run_a (Scenario.jobs_of 1) initial).
  - vm_compute. discriminate.
  - left. reflexivity.
  - intros H. vm_compute in H. discriminate H.
  - reflexivity.
Defined.

(** C9. With verification on and a cache that is the empty list, the loop
    leaves [sha] undefined after any list of runs: no iteration assigns it,
    [lastSha] is the SHA of the run looked at last and the cache stays
    empty.  What the action outputs is then [lastSha], after the warning
    that the SHA could not be determined. *)
Theorem empty_history_never_selects (W : World) (inputs : Inputs)
  (octokit : Octokit) (owner repo : option string) (st : State) :
  verify inputs = true ->
  repoShas st = Some [] ->
  (forall runs lastSha,
      exists st',
        scan W inputs octokit owner repo runs lastSha st
          = (Returned (lastSha_after runs lastSha, None), st')
        /\ repoShas st' = Some [])
  /\ (forall workflow_runs,
         exists st' events,
           select W inputs octokit owner repo workflow_runs st
             = (Returned tt, st')
           /\ outputs st' =
                outputs st
                  ++ [("sha",
                       lastSha_after (ranked inputs workflow_runs) None)]
           /\ log st' =
                log st ++ events
                  ++ [(Warning,
                       UnableToDetermine
                         (List.length (ranked inputs workflow_runs)))]).
Proof.
  intros V R.
  assert (Hscan : forall st0 runs lastSha,
             repoShas st0 = Some [] ->
             exists st',
               scan W inputs octokit owner repo runs lastSha st0
                 = (Returned (lastSha_after runs lastSha, None), st')
               /\ carries_on W st0 st').
  { intros st0 runs lastSha R0. apply scan_all_skipped.
    assert (Hh : history W st0 = []) by (unfold history; now rewrite R0).
    rewrite Hh. rewrite Forall_forall. intros x _.
    apply verdict_unverifiable, V. }
  split.
  - intros runs lastSha. destruct (Hscan st runs lastSha R) as (st' & E & C).
    exists st'. split; [exact E|]. apply C, R.
  - intros workflow_runs.
    set (runs := ranked inputs workflow_runs).
    set (st0 := announced (List.length runs) st).
    pose proof (carries_on_announced W (List.length runs) st) as C0.
    fold st0 in C0.
    assert (Ef : exists st1,
               find_sha W inputs octokit owner repo runs st0
                 = (Returned (lastSha_after runs None, None), st1)
               /\ carries_on W st0 st1).
    { unfold find_sha. destruct runs as [|x rest] eqn:Er.
      - simpl. eexists. split; [reflexivity|].
        apply (carries_on_emit W Info (NoPreviousRuns (branch inputs)) st0).
      - cbn [List.length Nat.ltb Nat.leb]. apply Hscan. exact R. }
    destruct Ef as (st1 & Ef & C1).
    pose proof (carries_on_trans W _ _ _ C0 C1)
      as (Ho & _ & _ & _ & _ & events & Hl).
    eexists. exists events. split.
    { apply (select_without_sha W inputs octokit owner repo workflow_runs
               st st1 (lastSha_after runs None)). exact Ef. }
    simpl. rewrite Ho, Hl. rewrite <- app_assoc. auto.
Qed.

Lemma empty_history_never_selects_witness :
  (forall runs lastSha,
      exists st',
        scan Scenario.broken Scenario.verifying Scenario.octokit
          Scenario.owner Scenario.repository runs lastSha
          Scenario.after_failure
          = (Returned (lastSha_after runs lastSha, None), st')
        /\ repoShas st' = Some [])
  /\ (forall workflow_runs,
         exists st' events,
           select Scenario.broken Scenario.verifying Scenario.octokit
             Scenario.owner Scenario.repository workflow_runs
             Scenario.after_failure
             = (Returned tt, st')
           /\ outputs st' =
                outputs Scenario.after_failure
                  ++ [("sha",
                       lastSha_after
                         (ranked Scenario.verifying workflow_runs) None)]
           /\ log st' =
                log Scenario.after_failure ++ events
                  ++ [(Warning,
                       UnableToDetermine
                         (List.length
                            (ranked Scenario.verifying workflow_runs)))]).
Proof.
  apply (empty_history_never_selects Scenario.broken Scenario.verifying
           Scenario.octokit Scenario.owner Scenario.repository
           Scenario.after_failure); reflexivity.
Defined.

(** C10. Every ranked run passes the branch check of the loop, because the
    filter before the ranking kept only such runs; the check never makes
    the loop skip a run, and the selection with the check taken out ends
    with the same outcome in the same state as the selection with it. *)
Theorem recheck_is_redundant (W : World) (inputs : Inputs)
  (octokit : Octokit) (owner repo : option string)
  (workflow_runs : list WorkflowRun) (st : State) :
  Forall (branch_matches inputs) (ranked inputs workflow_runs)
  /\ Forall (fun r => JS.truthy (branch inputs)
                      && negb (JS.strict_eq (head_branch r) (branch inputs))
                      = false)
       (ranked inputs workflow_runs)
  /\ select_unchecked W inputs octokit owner repo workflow_runs st
     = select W inputs octokit owner repo workflow_runs st.
Proof.
  pose proof (ranked_recheck inputs workflow_runs) as H.
  split; [|split; [exact H|]].
  - eapply Forall_impl; [|exact H]. intros x Hx.
    apply (recheck_false inputs x), Hx.
  - unfold select_unchecked, select, find_sha.
    apply bind_ext. intros _ st1.
    destruct (0 <? List.length (ranked inputs workflow_runs))%nat;
      [|reflexivity].
    unfold bind at 1 3. rewrite (scan_unchecked_scan _ _ _ _ _ _ H).
    reflexivity.
Qed.

(** * Further properties of the action *)

(** ** What the loop does to the state *)

Lemma listed_refl (inputs : Inputs) (st : State) :
  listed_at_most_once inputs st st.
Proof. left. auto. Qed.

Lemma listed_trans (inputs : Inputs) (st1 st2 st3 : State) :
  listed_at_most_once inputs st1 st2 ->
  listed_at_most_once inputs st2 st3 ->
  listed_at_most_once inputs st1 st3.
Proof.
  intros [[C1 R1] | (V1 & N1 & F1 & C1)] [[C2 R2] | (V2 & N2 & F2 & C2)].
  - left. split; congruence.
  - right. repeat split; congruence.
  - right. repeat split; congruence.
  - contradiction.
Qed.

Lemma steps_on_refl (inputs : Inputs) (st : State) : steps_on inputs st st.
Proof.
  unfold steps_on. repeat split; auto.
  - exists []. split; [now rewrite app_nil_r | constructor].
  - apply listed_refl.
Qed.

Lemma steps_on_trans (inputs : Inputs) (st1 st2 st3 : State) :
  steps_on inputs st1 st2 -> steps_on inputs st2 st3 ->
  steps_on inputs st1 st3.
Proof.
  intros (O1 & F1 & (e1 & L1 & N1) & X1) (O2 & F2 & (e2 & L2 & N2) & X2).
  unfold steps_on. repeat split; try congruence.
  - exists (e1 ++ e2). split.
    + rewrite L2, L1. now rewrite app_assoc.
    + apply Forall_app. auto.
  - eapply listed_trans; eauto.
Qed.

Lemma steps_on_logged (inputs : Inputs) (st : State) (events : list Event) :
  Forall (fun e => fallback_warning e = false) events ->
  steps_on inputs st (logged st events).
Proof.
  intros H. unfold steps_on, logged. simpl. repeat split; auto.
  - exists events. auto.
  - left. auto.
Qed.

Lemma steps_on_emit (inputs : Inputs) (l : Level) (m : Message)
  (st : State) :
  fallback_warning (l, m) = false ->
  steps_on inputs st (snd (core.emit l m st)).
Proof.
  intros H. apply (steps_on_logged inputs st [(l, m)]).
  constructor; [exact H | constructor].
Qed.

Lemma steps_on_opened (inputs : Inputs) (r : WorkflowRun) (st : State) :
  steps_on inputs st (opened inputs r st).
Proof.
  unfold steps_on, opened. simpl. repeat split; auto.
  - exists [(Debug, RunSha (head_sha r)); (Debug, RunBranch (head_branch r));
            (Debug, WantedBranch (branch inputs))].
    split; [now rewrite <- !app_assoc | repeat constructor].
  - left. auto.
Qed.

(** A call of the verifier returns, and lists the history only to fill an
    undefined cache. *)
Lemma verifyCommit_steps_on (W : World) (inputs : Inputs) (sha : string)
  (st : State) :
  verify inputs = true ->
  exists b st',
    verifyCommit W sha st = (Returned b, st') /\ steps_on inputs st st'.
Proof.
  intros V. destruct (repoShas st) as [shas|] eqn:H.
  - do 2 eexists. split; [apply verifyCommit_cached; exact H|].
    unfold steps_on. simpl. repeat split; auto.
    + eexists. split; [reflexivity | repeat constructor].
    + left. auto.
  - destruct (execAsync W git_log (execCalls st)) as [stdout|e] eqn:E.
    + do 2 eexists. split; [apply verifyCommit_listed; eassumption|].
      unfold steps_on. simpl. repeat split; auto.
      * eexists. split; [reflexivity | repeat constructor].
      * right. simpl. repeat split; auto. discriminate.
    + do 2 eexists.
      split; [apply (verifyCommit_failed W sha st e); assumption|].
      unfold steps_on. simpl. repeat split; auto.
      * eexists. split; [reflexivity | repeat constructor].
      * right. simpl. repeat split; auto. discriminate.
Qed.

(** The inner loop logs the jobs it looks at, up to the first one that is
    wanted and succeeded. *)
Lemma find_job_found (wanted : string) (pre post : list Job) (j : Job)
  (st : State) :
  forallb (fun x => negb (is_wanted wanted x)) pre = true ->
  is_wanted wanted j = true ->
  find_job wanted (pre ++ j :: post) st =
    (Returned true, logged st (map checking (pre ++ [j]))).
Proof.
  revert st. induction pre as [|x pre IH]; intros st Hpre Hj.
  - unfold is_wanted in Hj. apply andb_true_iff in Hj. destruct Hj as [N C].
    simpl. unfold bind, core.debug, core.emit. simpl. rewrite N, C.
    reflexivity.
  - simpl in Hpre. apply andb_true_iff in Hpre. destruct Hpre as [Hx Hpre].
    apply negb_true_iff in Hx. unfold is_wanted in Hx.
    cbn [app find_job]. unfold bind at 1. unfold core.debug, core.emit.
    assert (E : forall s,
               (if String.eqb (job_name x) wanted
                then if JS.strict_eq (job_conclusion x) "success"
                     then ret true
                     else find_job wanted (pre ++ j :: post)
                else find_job wanted (pre ++ j :: post)) s
               = find_job wanted (pre ++ j :: post) s).
    { intros s. destruct (String.eqb (job_name x) wanted); [|reflexivity].
      destruct (JS.strict_eq (job_conclusion x) "success");
        [discriminate Hx | reflexivity]. }
    rewrite E, (IH _ Hpre Hj). unfold logged. simpl.
    rewrite <- app_assoc. reflexivity.
Qed.

Lemma find_job_missing (wanted : string) (jobs : list Job) (st : State) :
  forallb (fun x => negb (is_wanted wanted x)) jobs = true ->
  find_job wanted jobs st = (Returned false, logged st (map checking jobs)).
Proof.
  revert st. induction jobs as [|x jobs IH]; intros st H.
  - unfold logged. simpl. rewrite app_nil_r. destruct st; reflexivity.
  - simpl in H. apply andb_true_iff in H. destruct H as [Hx H].
    apply negb_true_iff in Hx. unfold is_wanted in Hx.
    cbn [find_job]. unfold bind at 1. unfold core.debug, core.emit.
    assert (E : forall s,
               (if String.eqb (job_name x) wanted
                then if JS.strict_eq (job_conclusion x) "success"
                     then ret true
                     else find_job wanted jobs
                else find_job wanted jobs) s
               = find_job wanted jobs s).
    { intros s. destruct (String.eqb (job_name x) wanted); [|reflexivity].
      destruct (JS.strict_eq (job_conclusion x) "success");
        [discriminate Hx | reflexivity]. }
    rewrite E, (IH _ H). unfold logged. simpl.
    rewrite <- app_assoc. reflexivity.
Qed.

(** The jobs split at the first wanted one, when there is one. *)
Lemma first_wanted (wanted : string) (jobs : list Job) :
  forallb (fun x => negb (is_wanted wanted x)) jobs = true
  \/ exists pre j post,
       jobs = pre ++ j :: post
       /\ forallb (fun x => negb (is_wanted wanted x)) pre = true
       /\ is_wanted wanted j = true.
Proof.
  induction jobs as [|x jobs IH].
  - left. reflexivity.
  - destruct (is_wanted wanted x) eqn:Hx.
    + right. exists [], x, jobs. auto.
    + destruct IH as [IH | (pre & j & post & E & Hpre & Hj)].
      * left. simpl. rewrite Hx. exact IH.
      * right. exists (x :: pre), j, post. rewrite E. simpl. rewrite Hx.
        auto.
Qed.

Lemma checking_quiet (jobs : list Job) :
  Forall (fun e => fallback_warning e = false) (map checking jobs).
Proof. induction jobs; simpl; constructor; auto. Qed.

Lemma find_job_steps_on (inputs : Inputs) (wanted : string)
  (jobs : list Job) (st : State) :
  exists found st',
    find_job wanted jobs st = (Returned found, st')
    /\ steps_on inputs st st'.
Proof.
  destruct (first_wanted wanted jobs)
    as [H | (pre & j & post & E & Hpre & Hj)].
  - do 2 eexists. split; [apply find_job_missing, H|].
    apply steps_on_logged, checking_quiet.
  - subst jobs. do 2 eexists. split; [apply find_job_found; assumption|].
    apply steps_on_logged, checking_quiet.
Qed.

(** The loop over any list of runs ends, returning or throwing, in a state
    that [steps_on] relates to the one it started in. *)
Lemma scan_steps_on (W : World) (inputs : Inputs) (octokit : Octokit)
  (owner repo : option string) (runs : list WorkflowRun) :
  forall lastSha st,
  exists outcome st',
    scan W inputs octokit owner repo runs lastSha st = (outcome, st')
    /\ steps_on inputs st st'.
Proof.
  induction runs as [|r rest IH]; intros lastSha st.
  - do 2 eexists. split; [reflexivity | apply steps_on_refl].
  - rewrite scan_cons.
    pose proof (steps_on_opened inputs r st) as Ho.
    set (st0 := opened inputs r st) in *.
    assert (Hrest : forall s,
               steps_on inputs st s ->
               exists outcome st',
                 scan W inputs octokit owner repo rest (Some (head_sha r)) s
                   = (outcome, st')
                 /\ steps_on inputs st st').
    { intros s Hs. destruct (IH (Some (head_sha r)) s) as (o & s' & E & C).
      exists o, s'. split; [exact E | eapply steps_on_trans; eauto]. }
    destruct (JS.truthy (branch inputs)
              && negb (JS.strict_eq (head_branch r) (branch inputs))).
    { apply Hrest, Ho. }
    assert (Hjob : forall s,
               steps_on inputs st s ->
               exists outcome st',
                 (foundJob <- (if JS.truthy (job inputs) then
                                 jobs <- await (listJobsForWorkflowRun
                                                  octokit owner repo (id r));;
                                 find_job (job inputs) jobs
                               else ret true);;
                  if negb foundJob
                  then scan W inputs octokit owner repo rest
                         (Some (head_sha r))
                  else
                    core.info (if verify inputs
                               then Verified (head_sha r) (html_url r)
                               else Using (head_sha r) (html_url r));;
                    ret (Some (head_sha r), Some (head_sha r))) s
                 = (outcome, st')
                 /\ steps_on inputs st st').
    { intros s Hs.
      assert (Hsel : exists outcome st',
                 (core.info (if verify inputs
                             then Verified (head_sha r) (html_url r)
                             else Using (head_sha r) (html_url r));;
                  ret (Some (head_sha r), Some (head_sha r))) s
                 = (outcome, st')
                 /\ steps_on inputs st st'
                 /\ outcome = Returned (Some (head_sha r), Some (head_sha r))).
      { do 2 eexists. split; [reflexivity|]. split; [|reflexivity].
        eapply steps_on_trans; [exact Hs|].
        apply steps_on_emit. destruct (verify inputs); reflexivity. }
      destruct (JS.truthy (job inputs)).
      - unfold bind at 1. unfold bind at 1. unfold await.
        destruct (listJobsForWorkflowRun octokit owner repo (id r))
          as [jobs|msg].
        + destruct (find_job_steps_on inputs (job inputs) jobs s)
            as (found & s1 & E1 & C1).
          rewrite E1.
          pose proof (steps_on_trans _ _ _ _ Hs C1) as Hs1.
          destruct found; cbn [negb].
          * unfold bind, core.info, core.emit, ret. do 2 eexists.
            split; [reflexivity|].
            eapply steps_on_trans; [exact Hs1|].
            apply (steps_on_emit inputs Info). 
            destruct (verify inputs); reflexivity.
          * apply Hrest, Hs1.
        + do 2 eexists. split; [reflexivity | exact Hs].
      - unfold bind at 1. unfold ret at 1. cbn [negb].
        destruct Hsel as (o & s' & E & C & _). eauto. }
    destruct (verify inputs) eqn:V.
    + destruct (verifyCommit_steps_on W inputs (head_sha r) st0 V)
        as (b & s1 & E1 & C1).
      pose proof (steps_on_trans _ _ _ _ Ho C1) as Hs1.
      unfold bind at 1. unfold bind at 1. rewrite E1. unfold ret at 1.
      destruct b; cbn [negb].
      * apply Hjob, Hs1.
      * unfold bind at 1. unfold core.warning, core.emit.
        apply Hrest. eapply steps_on_trans; [exact Hs1|].
        apply (steps_on_emit inputs Warning (VerifyFailed (head_sha r))).
        reflexivity.
    + unfold bind at 1. unfold ret at 1. apply Hjob, Ho.
Qed.

(** ** The selection, from the loop to the output *)

Section Outcome.

Variable W : World.
Variable inputs : Inputs.
Variable octokit : Octokit.
Variables owner repo : option string.

Lemma find_sha_nonempty (runs : list WorkflowRun) (st : State) :
  runs <> [] ->
  find_sha W inputs octokit owner repo runs st
  = scan W inputs octokit owner repo runs None st.
Proof. destruct runs; [congruence | reflexivity]. Qed.

Lemma find_sha_steps_on (runs : list WorkflowRun) (st : State) :
  exists outcome st',
    find_sha W inputs octokit owner repo runs st = (outcome, st')
    /\ steps_on inputs st st'.
Proof.
  destruct runs as [|x rest].
  - do 2 eexists. split; [reflexivity|].
    apply (steps_on_emit inputs Info (NoPreviousRuns (branch inputs)) st).
    reflexivity.
  - rewrite find_sha_nonempty by discriminate. apply scan_steps_on.
Qed.

Lemma steps_on_announced (n : nat) (st : State) :
  steps_on inputs st (announced n st).
Proof.
  apply (steps_on_logged inputs st [(Debug, FoundRuns n)]).
  repeat constructor.
Qed.

(** When the loop ends with a SHA that is not the empty string, that SHA is
    output and nothing more is logged. *)
Lemma select_with_sha (workflow_runs : list WorkflowRun) (st st1 : State)
  (lastSha : option string) (s : string) :
  find_sha W inputs octokit owner repo (ranked inputs workflow_runs)
    (announced (List.length (ranked inputs workflow_runs)) st)
    = (Returned (lastSha, Some s), st1) ->
  s <> "" ->
  select W inputs octokit owner repo workflow_runs st =
    (Returned tt,
     {| repoShas := repoShas st1; execCalls := execCalls st1;
        log := log st1; outputs := outputs st1 ++ [("sha", Some s)];
        failure := failure st1 |}).
Proof.
  intros E N. rewrite select_unfold. unfold bind at 1. rewrite E.
  apply truthy_true in N. simpl. rewrite N. reflexivity.
Qed.

(** When the loop ends with the empty string as SHA, the action goes the
    way of the fallback. *)
Lemma select_with_empty_sha (workflow_runs : list WorkflowRun)
  (st st1 : State) (lastSha : option string) :
  find_sha W inputs octokit owner repo (ranked inputs workflow_runs)
    (announced (List.length (ranked inputs workflow_runs)) st)
    = (Returned (lastSha, Some ""), st1) ->
  select W inputs octokit owner repo workflow_runs st =
    (Returned tt,
     {| repoShas := repoShas st1; execCalls := execCalls st1;
        log := log st1
               ++ [(Warning,
                    UnableToDetermine
                      (List.length (ranked inputs workflow_runs)))];
        outputs := outputs st1 ++ [("sha", lastSha)];
        failure := failure st1 |}).
Proof.
  intros E. rewrite select_unfold. unfold bind at 1. rewrite E.
  reflexivity.
Qed.

Lemma select_thrown (workflow_runs : list WorkflowRun) (st st1 : State)
  (msg : string) :
  find_sha W inputs octokit owner repo (ranked inputs workflow_runs)
    (announced (List.length (ranked inputs workflow_runs)) st)
    = (Thrown msg, st1) ->
  select W inputs octokit owner repo workflow_runs st = (Thrown msg, st1).
Proof.
  intros E. rewrite select_unfold. unfold bind at 1. rewrite E.
  reflexivity.
Qed.

(** The selection returns after setting the output once, or throws without
    setting it; it reports no failure itself and lists the history at most
    once. *)
Lemma select_outcome (workflow_runs : list WorkflowRun) (st : State) :
  exists outcome st',
    select W inputs octokit owner repo workflow_runs st = (outcome, st')
    /\ listed_at_most_once inputs st st'
    /\ failure st' = failure st
    /\ match outcome with
       | Returned _ => exists v, outputs st' = outputs st ++ [("sha", v)]
       | Thrown _ => outputs st' = outputs st
       end.
Proof.
  set (n := List.length (ranked inputs workflow_runs)).
  destruct (find_sha_steps_on (ranked inputs workflow_runs) (announced n st))
    as (o & st1 & E & C).
  pose proof (steps_on_trans _ _ _ _ (steps_on_announced n st) C)
    as (Ho & Hf & _ & Hx).
  destruct o as [[lastSha [s|]]|msg].
  - destruct (String.eqb_spec s "") as [->|N].
    + eexists. eexists. split; [apply (select_with_empty_sha _ _ _ _ E)|].
      simpl. rewrite Ho. eauto.
    + eexists. eexists. split; [apply (select_with_sha _ _ _ _ _ E N)|].
      simpl. rewrite Ho. eauto.
  - eexists. eexists. split; [apply (select_without_sha _ _ _ _ _ _ _ _ _ E)|].
    simpl. rewrite Ho. eauto.
  - eexists. eexists. split; [apply (select_thrown _ _ _ _ E)|]. auto.
Qed.

(** What the loop ends with: a SHA of one of the runs in both variables,
    or no SHA and [lastSha] from the last run, or the rejection of the job
    lookup of one of the runs. *)
Lemma scan_result (runs : list WorkflowRun) (lastSha : option string)
  (st : State) :
  exists outcome st',
    scan W inputs octokit owner repo runs lastSha st = (outcome, st')
    /\ match outcome with
       | Returned (ls, Some s) =>
           exists r, In r runs /\ s = head_sha r /\ ls = Some s
       | Returned (ls, None) => ls = lastSha_after runs lastSha
       | Thrown msg =>
           exists r, In r runs
                     /\ listJobsForWorkflowRun octokit owner repo (id r)
                        = Thrown msg
       end.
Proof.
  destruct (first_not_skipped inputs octokit owner repo (history W st) runs)
    as [Hall | (pre & r & post & Er & Hpre & Hr)].
  - destruct (scan_all_skipped W inputs octokit owner repo runs lastSha st
                Hall) as (st1 & E1 & _).
    do 2 eexists. split; [exact E1 | reflexivity].
  - destruct (scan_prefix W inputs octokit owner repo pre st Hpre)
      as (st1 & C1 & E1).
    assert (Hh : history W st1 = history W st) by apply C1.
    assert (Hin : In r runs)
      by (rewrite Er; apply in_or_app; right; left; reflexivity).
    subst runs. rewrite E1.
    destruct (verdict inputs octokit owner repo (history W st) r)
      as [| |msg] eqn:V; [| congruence |].
    + rewrite <- Hh in V.
      destruct (scan_selects W inputs octokit owner repo r st1 V)
        as (st2 & _ & E2).
      do 2 eexists. split; [apply E2|]. exists r. auto.
    + pose proof (verdict_failed _ _ _ _ _ _ _ V) as L.
      rewrite <- Hh in V.
      destruct (scan_fails W inputs octokit owner repo r st1 msg V)
        as (st2 & _ & E2).
      do 2 eexists. split; [apply E2|]. exists r. auto.
Qed.

Lemma lastSha_after_nonempty (runs : list WorkflowRun)
  (lastSha : option string) :
  runs <> [] ->
  exists r, In r runs /\ lastSha_after runs lastSha = Some (head_sha r).
Proof.
  intros N. destruct (exists_last N) as (front & r & ->).
  exists r. split; [apply in_or_app; right; left; reflexivity|].
  apply lastSha_after_last.
Qed.

End Outcome.

Lemma ranked_kept (inputs : Inputs) (workflow_runs : list WorkflowRun)
  (x : WorkflowRun) :
  In x (ranked inputs workflow_runs) ->
  In x workflow_runs /\ keep inputs x = true.
Proof. unfold ranked. intros H. apply sort_In, filter_In in H. exact H. Qed.

Lemma unsatisfied_all_skipped (inputs : Inputs) (octokit : Octokit)
  (owner repo : option string) (hist : list string)
  (runs : list WorkflowRun) :
  Forall (fun x => ~ satisfies_all inputs octokit owner repo hist x) runs ->
  (forall x msg,
      In x runs ->
      listJobsForWorkflowRun octokit owner repo (id x) <> Thrown msg) ->
  Forall (fun x => verdict inputs octokit owner repo hist x = Skipped) runs.
Proof.
  intros Hn Hl. rewrite Forall_forall in *. intros x Hx.
  apply unsatisfied_skipped; [apply Hn, Hx|].
  intros msg. apply Hl, Hx.
Qed.

(** A run that passed the branch check and the verification, with a job
    asked for and the lookup of its jobs rejected. *)
Lemma rejected_failed (inputs : Inputs) (octokit : Octokit)
  (owner repo : option string) (hist : list string) (r : WorkflowRun)
  (msg : string) :
  branch_matches inputs r ->
  commit_verified inputs hist r ->
  job inputs <> "" ->
  listJobsForWorkflowRun octokit owner repo (id r) = Thrown msg ->
  verdict inputs octokit owner repo hist r = Failed msg.
Proof.
  intros B V J L. unfold verdict.
  apply recheck_false in B. apply unverified_false in V.
  apply truthy_true in J. rewrite B, V, J, L. reflexivity.
Qed.

(** ** [run] up to the selection *)

(** [run] reports a failure before it selects anything, or it logs the
    workflow it found and selects among the runs the API returned for it,
    a rejection going to the handler. *)
Lemma run_cases (W : World) (st : State) :
  (exists f st',
      run W st = (Returned tt, st')
      /\ failure st' = Some f
      /\ outputs st' = outputs st
      /\ execCalls st' = execCalls st
      /\ repoShas st' = repoShas st)
  \/ (exists octokit wf response,
         run W st =
           try_catch
             (select W (read_inputs W) octokit
                (owner_of (getInput W "repo")) (repo_of (getInput W "repo"))
                response)
             (fun msg => core.setFailed (ErrorMessage msg))
             (logged st [(Info, DiscoveredWorkflowId (wf_id wf))])).
Proof.
  remember (run W st) as result eqn:E.
  unfold run, try_catch in E. cbv zeta in E.
  change (token (read_inputs W)) with (getInput W "token") in E.
  change (repo (read_inputs W)) with (getInput W "repo") in E.
  change (workflow (read_inputs W)) with (getInput W "workflow") in E.
  unfold bind at 1 in E. unfold await at 1 in E.
  destruct (getOctokit W (getInput W "token")) as [octokit|msg];
    [|left; do 2 eexists; split; [exact E | simpl; auto]].
  unfold bind at 1 in E. unfold await at 1 in E.
  destruct (listRepoWorkflows octokit
              (nth_error (JS.split slash (getInput W "repo")) 0)
              (nth_error (JS.split slash (getInput W "repo")) 1))
    as [workflows|msg];
    [|left; do 2 eexists; split; [exact E | simpl; auto]].
  destruct (JS.find
              (fun w => String.eqb (JS.toLowerCase (wf_name w))
                          (JS.toLowerCase (getInput W "workflow")))
              workflows) as [wf|]; cbn [option_map no_id] in E;
    [|left; do 2 eexists; split; [exact E | simpl; auto]].
  destruct (wf_id wf =? 0)%Z;
    [left; do 2 eexists; split; [exact E | simpl; auto]|].
  unfold bind at 1 in E. unfold core.info at 1, core.emit at 1 in E.
  unfold bind at 1 in E. unfold await at 1 in E.
  destruct (listWorkflowRuns octokit
              (nth_error (JS.split slash (getInput W "repo")) 0)
              (nth_error (JS.split slash (getInput W "repo")) 1)
              (wf_id wf)) as [response|msg].
  - right. exists octokit, wf, response. exact E.
  - left. do 2 eexists. split; [exact E | simpl; auto].
Qed.




(** * Further properties, one for each entry *)

(** X1. [run] never throws.  It ends in one of two ways: the output [sha]
    was set once and no failure was reported, or a failure was reported and
    no output was set. *)
Theorem run_outputs_or_fails (W : World) (st : State) :
  exists st',
    run W st = (Returned tt, st')
    /\ ((exists v,
            outputs st' = outputs st ++ [("sha", v)]
            /\ failure st' = failure st)
        \/ (exists f, outputs st' = outputs st /\ failure st' = Some f)).
Proof.
  destruct (run_cases W st)
    as [(f & st' & E & F & O & _) | (octokit & wf & response & E)].
  - exists st'. split; [exact E|]. right. exists f. auto.
  - rewrite E. unfold try_catch.
    destruct (select_outcome W (read_inputs W) octokit
                (owner_of (getInput W "repo")) (repo_of (getInput W "repo"))
                response
                (logged st [(Info, DiscoveredWorkflowId (wf_id wf))]))
      as (o & st' & Es & _ & Hf & Ho).
    rewrite Es. destruct o as [[]|msg].
    + exists st'. split; [reflexivity|]. left.
      destruct Ho as (v & Ho). exists v. auto.
    + eexists. split; [reflexivity|]. right.
      exists (ErrorMessage msg). simpl. auto.
Qed.





(** X4. When the runs ranked before [r] are all skipped, [r] passes the
    branch check and the verification, a job is asked for and the lookup of
    the jobs of [r] is rejected, the selection throws the message of the
    rejection: no output is set, and the runs after [r] are not looked
    at. *)
Theorem select_rejected_lookup (W : World) (inputs : Inputs)
  (octokit : Octokit) (owner repo : option string)
  (workflow_runs pre post : list WorkflowRun) (r : WorkflowRun)
  (msg : string) (st : State) :
  ranked inputs workflow_runs = pre ++ r :: post ->
  Forall (fun x => ~ satisfies_all inputs octokit owner repo
                        (history W st) x) pre ->
  (forall x m,
      In x pre ->
      listJobsForWorkflowRun octokit owner repo (id x) <> Thrown m) ->
  branch_matches inputs r ->
  commit_verified inputs (history W st) r ->
  job inputs <> "" ->
  listJobsForWorkflowRun octokit owner repo (id r) = Thrown msg ->
  exists st',
    select W inputs octokit owner repo workflow_runs st = (Thrown msg, st')
    /\ outputs st' = outputs st
    /\ failure st' = failure st
    /\ scan W inputs octokit owner repo (pre ++ [r]) None
         (announced (List.length (ranked inputs workflow_runs)) st)
       = (Thrown msg, st').
Proof.
  intros Er Hpre Hl B V J L.
  set (n := List.length (ranked inputs workflow_runs)).
  pose proof (carries_on_announced W n st) as C0.
  assert (Hh : history W (announced n st) = history W st) by apply C0.
  rewrite <- Hh in Hpre, V.
  pose proof (unsatisfied_all_skipped _ _ _ _ _ _ Hpre Hl) as Hs.
  destruct (scan_prefix W inputs octokit owner repo pre _ Hs)
    as (st1 & C1 & E1).
  assert (Hh1 : history W st1 = history W (announced n st)) by apply C1.
  pose proof (rejected_failed inputs octokit owner repo _ r msg B V J L)
    as Vr.
  rewrite <- Hh1 in Vr.
  destruct (scan_fails W inputs octokit owner repo r st1 msg Vr)
    as (st2 & C2 & E2).
  pose proof (carries_on_trans W _ _ _ C0 (carries_on_trans W _ _ _ C1 C2))
    as (Ho & Hf & _).
  exists st2. split; [|split; [exact Ho | split; [exact Hf|]]].
  - apply select_thrown. fold n. rewrite Er.
    rewrite find_sha_nonempty by (destruct pre; discriminate).
    rewrite E1. apply E2.
  - rewrite E1. apply E2.
Qed.

Lemma select_rejected_lookup_witness :
  exists st',
    select (Edge.world "ci" "acme/widgets")
      (read_inputs (Edge.world "ci" "acme/widgets")) Edge.octokit
      Scenario.owner Scenario.repository Scenario.fetched initial
      = (Thrown "Not Found", st')
    /\ outputs st' = outputs initial
    /\ failure st' = failure initial
    /\ scan (Edge.world "ci" "acme/widgets")
         (read_inputs (Edge.world "ci" "acme/widgets")) Edge.octokit
         Scenario.owner Scenario.repository
         ([Scenario.run_a] ++ [Scenario.run_b]) None
         (announced
            (List.length
               (ranked (read_inputs (Edge.world "ci" "acme/widgets"))
                  Scenario.fetched)) initial)
       = (Thrown "Not Found", st').
Proof.
  apply (select_rejected_lookup (Edge.world "ci" "acme/widgets")
           (read_inputs (Edge.world "ci" "acme/widgets")) Edge.octokit
           Scenario.owner Scenario.repository Scenario.fetched
           [Scenario.run_a] [Scenario.run_d; Scenario.run_c] Scenario.run_b
           "Not Found" initial).
  - reflexivity.
  - repeat constructor. intros (_ & _ & Hj).
    destruct (Hj ltac:(discriminate)) as (jobs & j & E & Hin & Hn & Hc).
    injection E as <-.
    destruct Hin as [<- | [<- | []]]; discriminate.
  - intros x m [<- | []]. discriminate.
  - left. reflexivity.
  - intros H. discriminate H.
  - discriminate.
  - reflexivity.
Defined.

(** X5. When the runs ranked before [r] are all skipped, none of their job
    lookups being rejected, and [r] satisfies every enabled check and its
    head SHA is not the empty string, the selection returns with that SHA
    as the output [sha]; it reports no failure and the warning of the
    fallback is not among the entries it logs. *)
Theorem select_outputs_first_satisfying (W : World) (inputs : Inputs)
  (octokit : Octokit) (owner repo : option string)
  (workflow_runs pre post : list WorkflowRun) (r : WorkflowRun)
  (st : State) :
  ranked inputs workflow_runs = pre ++ r :: post ->
  Forall (fun x => ~ satisfies_all inputs octokit owner repo
                        (history W st) x) pre ->
  (forall x m,
      In x pre ->
      listJobsForWorkflowRun octokit owner repo (id x) <> Thrown m) ->
  satisfies_all inputs octokit owner repo (history W st) r ->
  head_sha r <> "" ->
  exists st' events,
    select W inputs octokit owner repo workflow_runs st = (Returned tt, st')
    /\ outputs st' = outputs st ++ [("sha", Some (head_sha r))]
    /\ failure st' = failure st
    /\ log st' = log st ++ events
    /\ Forall (fun e => fallback_warning e = false) events.
Proof.
  intros Er Hpre Hl S N.
  set (n := List.length (ranked inputs workflow_runs)).
  pose proof (carries_on_announced W n st) as C0.
  assert (Hh : history W (announced n st) = history W st) by apply C0.
  rewrite <- Hh in Hpre, S.
  pose proof (unsatisfied_all_skipped _ _ _ _ _ _ Hpre Hl) as Hs.
  apply verdict_selected in S.
  destruct (scan_first_selected W inputs octokit owner repo pre post r None
              _ Hs S) as (st1 & E1 & _).
  destruct (scan_steps_on W inputs octokit owner repo (pre ++ r :: post)
              None (announced n st)) as (o & st1' & E1' & C1).
  rewrite E1 in E1'. injection E1' as <- <-.
  pose proof (steps_on_trans _ _ _ _ (steps_on_announced inputs n st) C1)
    as (Ho & Hf & (events & Hlog & Hq) & _).
  eexists. exists events. split.
  { apply (select_with_sha W inputs octokit owner repo workflow_runs st st1
             (Some (head_sha r)) (head_sha r)); [|exact N].
    fold n. rewrite Er.
    rewrite find_sha_nonempty by (destruct pre; discriminate). exact E1. }
  simpl. rewrite Ho. auto.
Qed.

Lemma select_outputs_first_satisfying_witness :
  exists st' events,
    select (Scenario.with_git "" "test" "true") Scenario.verifying_test
      Scenario.octokit Scenario.owner Scenario.repository Scenario.fetched
      Scenario.after_listing = (Returned tt, st')
    /\ outputs st'
       = outputs Scenario.after_listing
           ++ [("sha", Some (head_sha Scenario.run_c))]
    /\ failure st' = failure Scenario.after_listing
    /\ log st' = log Scenario.after_listing ++ events
    /\ Forall (fun e => fallback_warning e = false) events.
Proof.
  apply (select_outputs_first_satisfying
           (Scenario.with_git "" "test" "true") Scenario.verifying_test
           Scenario.octokit Scenario.owner Scenario.repository
           Scenario.fetched
           [Scenario.run_a; Scenario.run_b; Scenario.run_d] []
           Scenario.run_c Scenario.after_listing).
  - reflexivity.
  - repeat constructor.
    + intros (_ & Hv & _). specialize (Hv eq_refl). vm_compute in Hv.
      destruct Hv as [H | [H | []]]; discriminate H.
    + intros (_ & _ & Hj).
      destruct (Hj ltac:(discriminate)) as (jobs & j & E & Hin & Hn & Hc).
      injection E as <-.
      destruct Hin as [<- | [<- | []]]; discriminate.
    + intros (_ & Hv & _). specialize (Hv eq_refl). vm_compute in Hv.
      destruct Hv as [H | [H | []]]; discriminate H.
  - intros x m _. simpl. discriminate.
  - split; [left; reflexivity|]. split.
    + intros _. vm_compute. left. reflexivity.
    + intros _. exists (Scenario.jobs_of 3), Scenario.job_test_ok.
      repeat split. right. left. reflexivity.
  - discriminate.
Defined.

(** X6. A run that satisfies every enabled check but whose head SHA is the
    empty string is treated as if nothing had been found: the warning of
    the fallback is the last entry logged, and the output is [lastSha],
    which is that empty string. *)
Theorem select_empty_sha_falls_back (W : World) (inputs : Inputs)
  (octokit : Octokit) (owner repo : option string)
  (workflow_runs pre post : list WorkflowRun) (r : WorkflowRun)
  (st : State) :
  ranked inputs workflow_runs = pre ++ r :: post ->
  Forall (fun x => ~ satisfies_all inputs octokit owner repo
                        (history W st) x) pre ->
  (forall x m,
      In x pre ->
      listJobsForWorkflowRun octokit owner repo (id x) <> Thrown m) ->
  satisfies_all inputs octokit owner repo (history W st) r ->
  head_sha r = "" ->
  exists st' events,
    select W inputs octokit owner repo workflow_runs st = (Returned tt, st')
    /\ outputs st' = outputs st ++ [("sha", Some "")]
    /\ failure st' = failure st
    /\ log st' =
         log st ++ events
           ++ [(Warning,
                UnableToDetermine
                  (List.length (ranked inputs workflow_runs)))].
Proof.
  intros Er Hpre Hl S N.
  set (n := List.length (ranked inputs workflow_runs)).
  pose proof (carries_on_announced W n st) as C0.
  assert (Hh : history W (announced n st) = history W st) by apply C0.
  rewrite <- Hh in Hpre, S.
  pose proof (unsatisfied_all_skipped _ _ _ _ _ _ Hpre Hl) as Hs.
  apply verdict_selected in S.
  destruct (scan_first_selected W inputs octokit owner repo pre post r None
              _ Hs S) as (st1 & E1 & C1).
  pose proof (carries_on_trans W _ _ _ C0 C1)
    as (Ho & Hf & _ & _ & _ & events & Hlog).
  rewrite N in E1.
  eexists. exists events. split.
  { apply (select_with_empty_sha W inputs octokit owner repo workflow_runs
             st st1 (Some "")).
    fold n. rewrite Er.
    rewrite find_sha_nonempty by (destruct pre; discriminate). exact E1. }
  simpl. rewrite Ho, Hlog, <- app_assoc. auto.
Qed.

Lemma select_empty_sha_falls_back_witness :
  exists st' events,
    select (Scenario.with_git "" "" "false") Scenario.plain Scenario.octokit
      Scenario.owner Scenario.repository [Scenario.run_b; Edge.run_e]
      initial = (Returned tt, st')
    /\ outputs st' = outputs initial ++ [("sha", Some "")]
    /\ failure st' = failure initial
    /\ log st' =
         log initial ++ events
           ++ [(Warning,
                UnableToDetermine
                  (List.length
                     (ranked Scenario.plain
                        [Scenario.run_b; Edge.run_e])))].
Proof.
  apply (select_empty_sha_falls_back (Scenario.with_git "" "" "false")
           Scenario.plain Scenario.octokit Scenario.owner
           Scenario.repository [Scenario.run_b; Edge.run_e] []
           [Scenario.run_b] Edge.run_e initial).
  - reflexivity.
  - constructor.
  - intros x m [].
  - split; [left; reflexivity|]. split.
    + intros H. discriminate H.
    + intros H. elim H. reflexivity.
  - reflexivity.
Defined.

(** X7. Whatever the selection outputs comes from a run the filter kept:
    when it returns, the output is undefined only if no run was ranked, and
    otherwise it is the head SHA of a fetched run that the filter kept.
    When it throws, no output is set and the message is that of the
    rejected job lookup of such a run. *)
Theorem select_outputs_kept_run (W : World) (inputs : Inputs)
  (octokit : Octokit) (owner repo : option string)
  (workflow_runs : list WorkflowRun) (st : State) :
  exists outcome st',
    select W inputs octokit owner repo workflow_runs st = (outcome, st')
    /\ match outcome with
       | Returned _ =>
           exists v,
             outputs st' = outputs st ++ [("sha", v)]
             /\ match v with
                | None => ranked inputs workflow_runs = []
                | Some s =>
                    exists x, In x workflow_runs
                              /\ keep inputs x = true
                              /\ head_sha x = s
                end
       | Thrown msg =>
           outputs st' = outputs st
           /\ exists x, In x workflow_runs
                        /\ keep inputs x = true
                        /\ listJobsForWorkflowRun octokit owner repo (id x)
                           = Thrown msg
       end.
Proof.
  set (runs := ranked inputs workflow_runs).
  set (st0 := announced (List.length runs) st).
  destruct (find_sha_steps_on W inputs octokit owner repo runs st0)
    as (o & st1 & E & C).
  pose proof (steps_on_trans _ _ _ _
                (steps_on_announced inputs (List.length runs) st) C)
    as (Ho & _).
  assert (Hk : forall x, In x runs ->
                         In x workflow_runs /\ keep inputs x = true)
    by apply ranked_kept.
  destruct runs as [|x0 rest] eqn:Er.
  - assert (Er' : ranked inputs workflow_runs = []) by exact Er.
    eexists. eexists. split.
    { eapply (select_without_sha W inputs octokit owner repo workflow_runs
                st). rewrite Er'. reflexivity. }
    simpl. exists None. split; reflexivity.
  - rewrite find_sha_nonempty in E by discriminate.
    destruct (scan_result W inputs octokit owner repo (x0 :: rest) None st0)
      as (o' & st1' & E' & P).
    rewrite E in E'. injection E' as <- <-.
    assert (Ef : find_sha W inputs octokit owner repo
                   (ranked inputs workflow_runs)
                   (announced (List.length (ranked inputs workflow_runs)) st)
                 = (o, st1)).
    { fold runs. rewrite Er. rewrite find_sha_nonempty by discriminate.
      exact E. }
    destruct o as [[ls [s|]]|msg].
    + destruct P as (r & Hr & -> & ->).
      destruct (Hk r Hr) as [Hin Hkeep].
      destruct (String.eqb_spec (head_sha r) "") as [N|N].
      * rewrite N in Ef. eexists. eexists. split.
        { apply (select_with_empty_sha W inputs octokit owner repo
                   workflow_runs st st1 _ Ef). }
        simpl. rewrite Ho. eexists. split; [reflexivity|].
        exists r. auto.
      * eexists. eexists. split.
        { apply (select_with_sha W inputs octokit owner repo workflow_runs
                   st st1 _ _ Ef N). }
        simpl. rewrite Ho. eexists. split; [reflexivity|].
        exists r. auto.
    + destruct (lastSha_after_nonempty (x0 :: rest) None)
        as (r & Hr & El); [discriminate|].
      rewrite El in P. subst ls.
      destruct (Hk r Hr) as [Hin Hkeep].
      eexists. eexists. split.
      { apply (select_without_sha W inputs octokit owner repo workflow_runs
                 st st1 _ Ef). }
      simpl. rewrite Ho. eexists. split; [reflexivity|].
      exists r. auto.
    + destruct P as (r & Hr & L).
      destruct (Hk r Hr) as [Hin Hkeep].
      eexists. eexists. split.
      { apply (select_thrown W inputs octokit owner repo workflow_runs st
                 st1 msg Ef). }
      split; [exact Ho|]. exists r. auto.
Qed.

(** X8. One run of the action invokes the listing command at most once.
    It does not invoke it, and leaves the cache as it is, when the [verify]
    input is not "true" or when the cache is already filled; when it does
    invoke it, the cache was undefined before and is filled after. *)
Theorem run_lists_history_at_most_once (W : World) (st : State) :
  exists st',
    run W st = (Returned tt, st')
    /\ (execCalls st' <= S (execCalls st))%nat
    /\ (getInput W "verify" <> "true" \/ repoShas st <> None ->
        execCalls st' = execCalls st /\ repoShas st' = repoShas st)
    /\ (execCalls st' <> execCalls st ->
        repoShas st = None /\ repoShas st' <> None).
Proof.
  assert (Hx : exists st',
             run W st = (Returned tt, st')
             /\ listed_at_most_once (read_inputs W) st st').
  { destruct (run_cases W st)
      as [(f & st' & E & _ & _ & C & R) | (octokit & wf & response & E)].
    - exists st'. split; [exact E|]. left. auto.
    - rewrite E. unfold try_catch.
      destruct (select_outcome W (read_inputs W) octokit
                  (owner_of (getInput W "repo"))
                  (repo_of (getInput W "repo")) response
                  (logged st [(Info, DiscoveredWorkflowId (wf_id wf))]))
        as (o & st' & Es & Hl & _).
      rewrite Es. destruct o as [[]|msg].
      + exists st'. split; [reflexivity | exact Hl].
      + eexists. split; [reflexivity|].
        destruct Hl as [[C R] | (V & N & F & C)]; [left | right];
          simpl; auto. }
  destruct Hx as (st' & E & [[C R] | (V & N & F & C)]).
  - exists st'. split; [exact E|]. rewrite C.
    repeat split; auto; congruence.
  - exists st'. split; [exact E|]. rewrite C.
    split; [lia|]. split.
    + intros [H | H]; [|contradiction].
      simpl in V. apply String.eqb_eq in V. contradiction.
    + auto.
Qed.

Lemma run_lists_history_at_most_once_witness :
  exists st',
    run (Scenario.with_git "" "test" "true") Scenario.after_listing
      = (Returned tt, st')
    /\ execCalls st' = execCalls Scenario.after_listing
    /\ repoShas st' = repoShas Scenario.after_listing.
Proof.
  destruct (run_lists_history_at_most_once
              (Scenario.with_git "" "test" "true") Scenario.after_listing)
    as (st' & E & _ & H & _).
  exists st'. split; [exact E|]. apply H. right. discriminate.
Defined.

Lemma is_wanted_iff (wanted : string) (j : Job) :
  is_wanted wanted j = true <->
  job_name j = wanted /\ job_conclusion j = Some "success".
Proof.
  unfold is_wanted. rewrite andb_true_iff, String.eqb_eq, strict_eq_true.
  reflexivity.
Qed.

Lemma none_wanted (wanted : string) (jobs : list Job) :
  Forall (fun x => ~ (job_name x = wanted
                      /\ job_conclusion x = Some "success")) jobs ->
  forallb (fun x => negb (is_wanted wanted x)) jobs = true.
Proof.
  intros H. apply forallb_forall. rewrite Forall_forall in H.
  intros x Hx. apply negb_true_iff.
  destruct (is_wanted wanted x) eqn:E; [|reflexivity].
  apply is_wanted_iff in E. elim (H x Hx E).
Qed.

(** X9. The inner loop stops at the first job that has the wanted name and
    succeeded: it logs the jobs up to and including that one, none of those
    after it, and ends with [foundJob] true.  When no job is such, it logs
    every job and ends with [foundJob] false.  It changes nothing but the
    log. *)
Theorem inner_loop_stops_at_first_success (wanted : string)
  (jobs : list Job) (st : State) :
  (forall pre j post,
      jobs = pre ++ j :: post ->
      Forall (fun x => ~ (job_name x = wanted
                          /\ job_conclusion x = Some "success")) pre ->
      job_name j = wanted ->
      job_conclusion j = Some "success" ->
      find_job wanted jobs st
      = (Returned true, logged st (map checking (pre ++ [j]))))
  /\ (Forall (fun x => ~ (job_name x = wanted
                          /\ job_conclusion x = Some "success")) jobs ->
      find_job wanted jobs st
      = (Returned false, logged st (map checking jobs))).
Proof.
  split.
  - intros pre j post -> Hpre Hn Hc.
    apply find_job_found; [apply none_wanted, Hpre|].
    apply is_wanted_iff. auto.
  - intros H. apply find_job_missing, none_wanted, H.
Qed.

Lemma inner_loop_stops_at_first_success_witness :
  find_job "test"
    [Scenario.job_build_ok; Scenario.job_test_bad; Scenario.job_test_ok;
     Scenario.job_Test_ok] initial
  = (Returned true,
     logged initial
       (map checking
          ([Scenario.job_build_ok; Scenario.job_test_bad]
             ++ [Scenario.job_test_ok]))).
Proof.
  apply (proj1 (inner_loop_stops_at_first_success "test"
                  [Scenario.job_build_ok; Scenario.job_test_bad;
                   Scenario.job_test_ok; Scenario.job_Test_ok] initial)
           [Scenario.job_build_ok; Scenario.job_test_bad]
           Scenario.job_test_ok [Scenario.job_Test_ok]).
  - reflexivity.
  - repeat constructor; intros [Hn Hc]; discriminate.
  - reflexivity.
  - reflexivity.
Defined.

(** ** Splitting and trimming *)

Lemma all_chars_impl (p q : ascii -> bool) (s : string) :
  (forall c, p c = true -> q c = true) ->
  all_chars p s = true -> all_chars q s = true.
Proof.
  intros H. induction s as [|c s IH]; simpl; [reflexivity|].
  rewrite !andb_true_iff. intros [Hc Hs]. auto.
Qed.

Lemma split_whole (sep : ascii) (s : string) :
  all_chars (fun c => negb (Ascii.eqb c sep)) s = true ->
  JS.split sep s = [s].
Proof.
  induction s as [|c s IH]; simpl; [reflexivity|].
  rewrite andb_true_iff, negb_true_iff. intros [Hc Hs].
  rewrite Hc, (IH Hs). reflexivity.
Qed.

Lemma split_first (sep : ascii) (a b : string) :
  all_chars (fun c => negb (Ascii.eqb c sep)) a = true ->
  JS.split sep (a ++ String sep b)%string = a :: JS.split sep b.
Proof.
  induction a as [|c a IH]; simpl.
  - intros _. now rewrite Ascii.eqb_refl.
  - rewrite andb_true_iff, negb_true_iff. intros [Hc Ha].
    rewrite Hc, (IH Ha). reflexivity.
Qed.

Lemma unlines_cons (x y : string) (rest : list string) :
  unlines (x :: y :: rest)
  = (x ++ String newline (unlines (y :: rest)))%string.
Proof. reflexivity. Qed.

Lemma split_unlines (lines : list string) :
  lines <> [] ->
  Forall (fun l => all_chars (fun c => negb (Ascii.eqb c newline)) l = true)
    lines ->
  JS.split newline (unlines lines) = lines.
Proof.
  intros N H. induction H as [|x rest Hx Hrest IH]; [congruence|].
  destruct rest as [|y rest].
  - apply split_whole, Hx.
  - rewrite unlines_cons, (split_first _ _ _ Hx), IH by discriminate.
    reflexivity.
Qed.

Lemma visible_not_space (c : ascii) :
  visible c = true -> JS.is_space c = false.
Proof.
  unfold visible, JS.is_space. cbv zeta.
  rewrite andb_true_iff, !Nat.leb_le.
  rewrite orb_false_iff, andb_false_iff, !Nat.leb_gt, Nat.eqb_neq. lia.
Qed.

Lemma visible_not_newline (c : ascii) :
  visible c = true -> negb (Ascii.eqb c newline) = true.
Proof.
  intros H. apply negb_true_iff. destruct (Ascii.eqb_spec c newline) as [->|];
    [discriminate H | reflexivity].
Qed.

Lemma trimStart_spaces (ws s : string) :
  all_chars JS.is_space ws = true ->
  JS.trimStart (ws ++ s)%string = JS.trimStart s.
Proof.
  induction ws as [|c ws IH]; simpl; [reflexivity|].
  rewrite andb_true_iff. intros [Hc Hws]. rewrite Hc. auto.
Qed.

Lemma trimEnd_spaces (ws : string) :
  all_chars JS.is_space ws = true -> JS.trimEnd ws = "".
Proof.
  induction ws as [|c ws IH]; simpl; [reflexivity|].
  rewrite andb_true_iff. intros [Hc Hws]. rewrite (IH Hws), Hc. reflexivity.
Qed.

Lemma trimEnd_app_spaces (s ws : string) :
  all_chars JS.is_space ws = true ->
  JS.trimEnd (s ++ ws)%string = JS.trimEnd s.
Proof.
  intros H. induction s as [|c s IH]; simpl.
  - apply trimEnd_spaces, H.
  - rewrite IH. reflexivity.
Qed.

Lemma trimEnd_visible (s : string) :
  all_chars visible s = true -> JS.trimEnd s = s.
Proof.
  induction s as [|c s IH]; simpl; [reflexivity|].
  rewrite andb_true_iff. intros [Hc Hs].
  rewrite (visible_not_space c Hc), (IH Hs). reflexivity.
Qed.

Lemma trimEnd_app (a b : string) :
  JS.trimEnd b <> "" ->
  JS.trimEnd (a ++ b)%string = (a ++ JS.trimEnd b)%string.
Proof.
  intros N. induction a as [|c a IH]; simpl; [reflexivity|].
  rewrite IH.
  destruct (String.eqb_spec (a ++ JS.trimEnd b)%string "") as [E|_].
  - destruct a; simpl in E; [contradiction | discriminate E].
  - rewrite andb_false_r. reflexivity.
Qed.

(** Lines of visible characters, none of them empty, joined by line feeds:
    the text starts with a visible character and trimming its end changes
    nothing. *)
Lemma unlines_visible (lines : list string) :
  lines <> [] ->
  Forall (fun l => l <> "" /\ all_chars visible l = true) lines ->
  (exists c s, unlines lines = String c s /\ visible c = true)
  /\ JS.trimEnd (unlines lines) = unlines lines.
Proof.
  intros N H. induction H as [|x rest [Hn Hx] Hrest IH]; [congruence|].
  destruct rest as [|y rest].
  - split; [|apply trimEnd_visible, Hx].
    destruct x as [|c x]; [congruence|]. simpl in Hx.
    apply andb_true_iff in Hx. exists c, x. split; [reflexivity | apply Hx].
  - destruct IH as [(c' & s' & E' & V') T']; [discriminate|].
    rewrite unlines_cons. split.
    + destruct x as [|c x]; [congruence|]. simpl in Hx.
      apply andb_true_iff in Hx. eexists c, _.
      split; [reflexivity | apply Hx].
    + assert (Tb : JS.trimEnd (String newline (unlines (y :: rest)))
                   = String newline (unlines (y :: rest))).
      { cbn [JS.trimEnd]. rewrite T', E'. rewrite andb_false_r.
        reflexivity. }
      rewrite trimEnd_app; rewrite Tb; [reflexivity | discriminate].
Qed.

Lemma trim_unlines (lead trail : string) (lines : list string) :
  lines <> [] ->
  Forall (fun l => l <> "" /\ all_chars visible l = true) lines ->
  all_chars JS.is_space lead = true ->
  all_chars JS.is_space trail = true ->
  JS.trim (lead ++ unlines lines ++ trail)%string = unlines lines.
Proof.
  intros N H Hl Ht. unfold JS.trim. rewrite (trimStart_spaces _ _ Hl).
  destruct (unlines_visible lines N H) as [(c & s & E & V) T].
  rewrite E. cbn [String.append JS.trimStart].
  rewrite (visible_not_space c V).
  change (String c (s ++ trail)%string) with (String c s ++ trail)%string.
  rewrite (trimEnd_app_spaces _ _ Ht), <- E. exact T.
Qed.

Lemma trim_blank (s : string) :
  all_chars JS.is_space s = true -> JS.trim s = "".
Proof.
  intros H. unfold JS.trim.
  assert (E : JS.trimStart s = "").
  { induction s as [|c s IH]; simpl in *; [reflexivity|].
    apply andb_true_iff in H. destruct H as [Hc Hs]. rewrite Hc. auto. }
  rewrite E. reflexivity.
Qed.

(** X10. When the cache is undefined and the listing command prints commit
    hashes one per line, with white space before and after them at most,
    the cache becomes the list of those hashes in the order printed, and
    the verifier returns true exactly for the SHAs among them. *)
Theorem verifyCommit_listed_hashes (W : World) (sha : string) (st : State)
  (hashes : list string) (lead trail : string) :
  repoShas st = None ->
  hashes <> [] ->
  Forall (fun h => h <> "" /\ all_chars visible h = true) hashes ->
  all_chars JS.is_space lead = true ->
  all_chars JS.is_space trail = true ->
  execAsync W git_log (execCalls st)
    = Returned (lead ++ unlines hashes ++ trail)%string ->
  exists b st',
    verifyCommit W sha st = (Returned b, st')
    /\ repoShas st' = Some hashes
    /\ (b = true <-> In sha hashes).
Proof.
  intros R N H Hl Ht E.
  assert (Ec : JS.split newline (JS.trim (lead ++ unlines hashes ++ trail))
               = hashes).
  { rewrite (trim_unlines lead trail hashes N H Hl Ht).
    apply split_unlines; [exact N|].
    eapply Forall_impl; [|exact H]. intros h [_ Hv].
    apply (all_chars_impl visible); [apply visible_not_newline | exact Hv]. }
  do 2 eexists. split; [apply (verifyCommit_listed W sha st _ R E)|].
  simpl. rewrite Ec. split; [reflexivity | apply includes_In].
Qed.

Lemma verifyCommit_listed_hashes_witness :
  exists b st',
    verifyCommit (Scenario.with_git "" "" "true") "bbb" initial
      = (Returned b, st')
    /\ repoShas st' = Some ["ccc"; "bbb"]
    /\ (b = true <-> In "bbb" ["ccc"; "bbb"]).
Proof.
  apply (verifyCommit_listed_hashes (Scenario.with_git "" "" "true") "bbb"
           initial ["ccc"; "bbb"] "" (String newline "")).
  - reflexivity.
  - discriminate.
  - repeat constructor; discriminate.
  - reflexivity.
  - reflexivity.
  - reflexivity.
Defined.

(** X11. When the cache is undefined and the listing command succeeds but
    prints nothing, or white space only, the cache becomes a list holding
    the empty string alone: the verifier then returns true for the empty
    SHA and false for every other. *)
Theorem verifyCommit_blank_listing (W : World) (sha stdout : string)
  (st : State) :
  repoShas st = None ->
  all_chars JS.is_space stdout = true ->
  execAsync W git_log (execCalls st) = Returned stdout ->
  exists b st',
    verifyCommit W sha st = (Returned b, st')
    /\ repoShas st' = Some [""]
    /\ (b = true <-> sha = "").
Proof.
  intros R H E.
  do 2 eexists. split; [apply (verifyCommit_listed W sha st _ R E)|].
  simpl. rewrite (trim_blank stdout H). simpl.
  split; [reflexivity|]. rewrite orb_false_r. apply String.eqb_eq.
Qed.

Lemma verifyCommit_blank_listing_witness :
  exists b st',
    verifyCommit (Edge.world "ci" "acme/widgets") "ccc" initial
      = (Returned b, st')
    /\ repoShas st' = Some [""]
    /\ (b = true <-> "ccc" = "").
Proof.
  apply (verifyCommit_blank_listing (Edge.world "ci" "acme/widgets") "ccc"
           (String newline "") initial); reflexivity.
Defined.

(** X12. The owner and the repository passed to the API are the first and
    the second of the pieces the [repo] input has between its slashes: for
    an input of the form owner/name they are the owner and the name,
    further pieces are ignored, and for an input without a slash the owner
    is the whole input and the repository is undefined. *)
Theorem repo_input_pieces (owner name : string) :
  all_chars not_slash owner = true ->
  all_chars not_slash name = true ->
  (owner_of (owner ++ String slash name)%string = Some owner
   /\ repo_of (owner ++ String slash name)%string = Some name)
  /\ (forall more,
         owner_of (owner ++ String slash (name ++ String slash more))%string
           = Some owner
         /\ repo_of (owner ++ String slash (name ++ String slash more))%string
            = Some name)
  /\ (owner_of owner = Some owner /\ repo_of owner = None).
Proof.
  intros Ho Hn. unfold owner_of, repo_of, not_slash in *.
  split; [|split].
  - rewrite (split_first _ _ _ Ho), (split_whole _ _ Hn). auto.
  - intros more.
    rewrite (split_first _ _ _ Ho), (split_first _ _ _ Hn). auto.
  - rewrite (split_whole _ _ Ho). auto.
Qed.

Lemma repo_input_pieces_witness :
  (owner_of ("acme" ++ String slash "widgets")%string = Some "acme"
   /\ repo_of ("acme" ++ String slash "widgets")%string = Some "widgets")
  /\ (forall more,
         owner_of ("acme" ++ String slash ("widgets" ++ String slash more))%string
           = Some "acme"
         /\ repo_of ("acme" ++ String slash ("widgets" ++ String slash more))%string
            = Some "widgets")
  /\ (owner_of "acme" = Some "acme" /\ repo_of "acme" = None).
Proof.
  apply (repo_input_pieces "acme" "widgets"); reflexivity.
Defined.

(** ** Ranking twice *)

Lemma filter_all {A : Type} (p : A -> bool) (xs : list A) :
  (forall x, In x xs -> p x = true) -> filter p xs = xs.
Proof.
  induction xs as [|x xs IH]; intros H; simpl; [reflexivity|].
  rewrite (H x (or_introl eq_refl)), IH; [reflexivity|].
  intros y Hy. apply H. right. exact Hy.
Qed.

Lemma sort_sorted (xs : list WorkflowRun) :
  StronglySorted newer_first xs -> JS.sort by_created_at xs = xs.
Proof.
  induction 1 as [|x xs Hs IH Hx]; [reflexivity|].
  cbn [JS.sort fold_right]. fold (JS.sort by_created_at xs). rewrite IH.
  destruct xs as [|y ys]; [reflexivity|].
  cbn [JS.insert]. unfold by_created_at at 1.
  apply Forall_inv in Hx. unfold newer_first in Hx.
  replace (created_at y - created_at x <=? 0)%Z with true
    by (symmetry; apply Z.leb_le; lia).
  reflexivity.
Qed.

(** X13. Ranking is idempotent: filtering and sorting the ranked runs once
    more gives the ranked runs again. *)
Theorem ranked_idempotent (inputs : Inputs)
  (workflow_runs : list WorkflowRun) :
  ranked inputs (ranked inputs workflow_runs) = ranked inputs workflow_runs.
Proof.
  unfold ranked at 1.
  rewrite (filter_all (keep inputs) (ranked inputs workflow_runs)).
  - apply sort_sorted, sort_newer_first.
  - intros x Hx. apply (ranked_kept inputs workflow_runs x Hx).
Qed.

(** ** The workflow that is searched and the cache that is kept *)



(** X15. Once the cache is filled, any series of calls of the verifier
    answers each SHA by its membership in the cache, whatever the order of
    the calls; the cache stays as it is, the listing command is not
    invoked, and each call adds one entry to the log. *)
Theorem verify_each_cached (W : World) (shas cache : list string)
  (st : State) :
  repoShas st = Some cache ->
  verify_each W shas st =
    (Returned (map (JS.includes cache) shas),
     {| repoShas := Some cache; execCalls := execCalls st;
        log := log st ++ map (fun sha => (Info, LookingForSha sha)) shas;
        outputs := outputs st; failure := failure st |}).
Proof.
  revert st. induction shas as [|sha rest IH]; intros st H.
  - simpl. rewrite app_nil_r, <- H. destruct st; reflexivity.
  - cbn [verify_each map]. unfold bind at 1.
    rewrite (verifyCommit_cached W sha st cache H).
    unfold bind at 1. rewrite IH by reflexivity.
    simpl. rewrite <- app_assoc. reflexivity.
Qed.

Lemma verify_each_cached_witness :
  verify_each (Scenario.with_git "" "test" "true") ["bbb"; "aaa"; "bbb"]
    Scenario.after_listing =
    (Returned (map (JS.includes ["ccc"; "bbb"]) ["bbb"; "aaa"; "bbb"]),
     {| repoShas := Some ["ccc"; "bbb"];
        execCalls := execCalls Scenario.after_listing;
        log := log Scenario.after_listing
               ++ map (fun sha => (Info, LookingForSha sha))
                    ["bbb"; "aaa"; "bbb"];
        outputs := outputs Scenario.after_listing;
        failure := failure Scenario.after_listing |}).
Proof.
  apply (verify_each_cached (Scenario.with_git "" "test" "true")
           ["bbb"; "aaa"; "bbb"] ["ccc"; "bbb"] Scenario.after_listing).
  reflexivity.
Defined.
